(** * event-source-shim: the EventSource engine of [dist/event-source.js]

    A shallow embedding of the module: the incremental stream parser
    ([parseStream], [processField], [dispatchMessage]), the connection
    life cycle ([createConnection] and the four transport callbacks,
    [announceConnection], [reestablishConnection], [failConnection],
    [close]) and the deferred task queue.

    JavaScript strings are sequences of UTF-16 code units ([list N]);
    JavaScript numbers are modelled by exact rationals ([Q]): rounding of
    IEEE doubles is not part of the model. *)

From Stdlib Require Import Ascii String.
From Stdlib Require Import List Bool Arith NArith ZArith QArith Qpower Lia.
Import ListNotations.

Close Scope Q_scope.
Open Scope nat_scope.

(** ** Strings *)

Module JS.

Definition jschar := N.
Definition jsstring := list jschar.

Definition CR : jschar := 13%N.
Definition LF : jschar := 10%N.
Definition NUL : jschar := 0%N.
Definition SPACE : jschar := 32%N.
Definition COLON : jschar := 58%N.

(** An ASCII literal as a JavaScript string. *)
Definition str (s : string) : jsstring :=
  List.map N_of_ascii (list_ascii_of_string s).
Arguments str s%_string.

Fixpoint eqb (a b : jsstring) : bool :=
  match a, b with
  | [], [] => true
  | x :: a', y :: b' => N.eqb x y && eqb a' b'
  | _, _ => false
  end.

(** [String.prototype.toLowerCase] on the code units A-Z.  The module only
    compares lowered names with the ASCII constants "event", "data", "id",
    "retry" and "text/event-stream"; no code unit outside ASCII lowers to a
    letter of these words, so the ASCII mapping decides those comparisons
    exactly as the full Unicode mapping does. *)
Definition lower_unit (c : jschar) : jschar :=
  if (65 <=? c)%N && (c <=? 90)%N then (c + 32)%N else c.

Definition toLowerCase (s : jsstring) : jsstring := List.map lower_unit s.

(** [s.indexOf(c)] for a one-unit needle; [None] stands for -1. *)
Fixpoint indexOf (s : jsstring) (c : jschar) : option nat :=
  match s with
  | [] => None
  | x :: s' =>
      if N.eqb x c then Some 0
      else match indexOf s' c with
           | Some i => Some (S i)
           | None => None
           end
  end.

(** [s.includes(c)] for a one-unit needle. *)
Definition includes (s : jsstring) (c : jschar) : bool :=
  existsb (N.eqb c) s.

(** [s.startsWith(p)]. *)
Fixpoint startsWith (s p : jsstring) : bool :=
  match p, s with
  | [], _ => true
  | y :: p', x :: s' => N.eqb x y && startsWith s' p'
  | _ :: _, [] => false
  end.

(** [s.slice(0, n)] and [s.slice(n)] for [0 <= n]. *)
Definition slice_to (s : jsstring) (n : nat) : jsstring := firstn n s.
Definition slice_from (s : jsstring) (n : nat) : jsstring := skipn n s.

(** [s.slice(0, -1)]. *)
Definition slice_drop_last (s : jsstring) : jsstring := removelast s.

(** [s[i] === c], false when [i] is out of range ([s[i]] is undefined). *)
Definition unit_at_is (s : jsstring) (i : nat) (c : jschar) : bool :=
  match nth_error s i with
  | Some x => N.eqb x c
  | None => false
  end.

Definition is_digit (c : jschar) : bool := (48 <=? c)%N && (c <=? 57)%N.

(** [parseInt(s, 10)] on a string of ASCII digits (the only strings the
    module passes, after the [DIGITS] test). *)
Definition parseInt (s : jsstring) : N :=
  fold_left (fun acc c => (10 * acc + (c - 48))%N) s 0%N.

End JS.

Import JS.

(** ** The two regular expressions *)

(** [DIGITS = /^[0-9]+$/u]: one or more ASCII digits, nothing else. *)
Definition DIGITS_test (s : jsstring) : bool :=
  match s with
  | [] => false
  | _ :: _ => forallb is_digit s
  end.

(** The pattern [LINE], matched at the head of [s]: capture group 1 is the
    greedy run of units other than CR and LF (the class [^\r\n], starred);
    the terminator is the alternation of \r\n and the class [\r\n], so
    CRLF is taken in preference to a single CR or LF.  Returns capture group 1 and the length of the whole
    match.  When the run reaches the end of [s] no shorter run helps (the
    unit after it is not a terminator), so the match fails. *)
Fixpoint LINE_match (s : jsstring) : option (jsstring * nat) :=
  match s with
  | [] => None
  | c :: s' =>
      if N.eqb c CR then
        match s' with
        | c' :: _ => if N.eqb c' LF then Some ([], 2) else Some ([], 1)
        | [] => Some ([], 1)
        end
      else if N.eqb c LF then Some ([], 1)
      else match LINE_match s' with
           | Some (l, n) => Some (c :: l, S n)
           | None => None
           end
  end.

(** The search of [RegExp.prototype.exec] with the [g] flag: [s] is the
    buffer from index [i] on; the first index at or after [i] where the
    pattern matches wins.  Returns [match[1]] and the new [lastIndex]. *)
Fixpoint LINE_search (s : jsstring) (i : nat) : option (jsstring * nat) :=
  match LINE_match s with
  | Some (l, n) => Some (l, i + n)
  | None =>
      match s with
      | [] => None
      | _ :: s' => LINE_search s' (S i)
      end
  end.

(** [LINE.lastIndex = lastIndex; LINE.exec(buffer)]: fails when [lastIndex]
    is beyond the end of the buffer. *)
Definition LINE_exec (buffer : jsstring) (lastIndex : nat)
  : option (jsstring * nat) :=
  if length buffer <? lastIndex then None
  else LINE_search (skipn lastIndex buffer) lastIndex.

(** ** Data model *)

Inductive ReadyState := CONNECTING | OPEN | CLOSED.

Definition ReadyState_eqb (a b : ReadyState) : bool :=
  match a, b with
  | CONNECTING, CONNECTING | OPEN, OPEN | CLOSED, CLOSED => true
  | _, _ => false
  end.

(** What the module reads of the anchor element returned by [parseURL]. *)
Record URL := mkURL {
  href : jsstring;
  protocol : jsstring;
  host : jsstring }.

(** The internal slots of an [EventSource].  [request] holds the index of
    the current [XMLHttpRequest] in the list of requests made so far. *)
Record Slots := mkSlots {
  url : URL;
  request : option nat;
  reconnectionTime : Q;
  lastEventId : jsstring;
  withCredentials : bool;
  readyState : ReadyState;
  additionalReconnectionTime : Q }.

(** The [state] object of one [createConnection] call. *)
Record ParsingState := mkState {
  st_origin : jsstring;
  st_data : jsstring;
  st_type : jsstring;
  st_lastEventId : option jsstring; (* null = None *)
  st_pos : nat }.

(** The fields given to [createMessageEvent]. *)
Record MessageEvent := mkMessageEvent {
  ev_type : jsstring;
  ev_data : jsstring;
  ev_origin : jsstring;
  ev_lastEventId : jsstring }.

Definition set_reconnectionTime (s : Slots) (v : Q) : Slots :=
  mkSlots (url s) (request s) v (lastEventId s) (withCredentials s)
          (readyState s) (additionalReconnectionTime s).

Definition set_lastEventId (s : Slots) (v : jsstring) : Slots :=
  mkSlots (url s) (request s) (reconnectionTime s) v (withCredentials s)
          (readyState s) (additionalReconnectionTime s).

Definition set_request (s : Slots) (v : option nat) : Slots :=
  mkSlots (url s) v (reconnectionTime s) (lastEventId s) (withCredentials s)
          (readyState s) (additionalReconnectionTime s).

Definition set_readyState (s : Slots) (v : ReadyState) : Slots :=
  mkSlots (url s) (request s) (reconnectionTime s) (lastEventId s)
          (withCredentials s) v (additionalReconnectionTime s).

Definition set_additionalReconnectionTime (s : Slots) (v : Q) : Slots :=
  mkSlots (url s) (request s) (reconnectionTime s) (lastEventId s)
          (withCredentials s) (readyState s) v.

Definition set_origin (st : ParsingState) (v : jsstring) : ParsingState :=
  mkState v (st_data st) (st_type st) (st_lastEventId st) (st_pos st).

Definition set_data (st : ParsingState) (v : jsstring) : ParsingState :=
  mkState (st_origin st) v (st_type st) (st_lastEventId st) (st_pos st).

Definition set_type (st : ParsingState) (v : jsstring) : ParsingState :=
  mkState (st_origin st) (st_data st) v (st_lastEventId st) (st_pos st).

Definition set_st_lastEventId (st : ParsingState) (v : option jsstring)
  : ParsingState :=
  mkState (st_origin st) (st_data st) (st_type st) v (st_pos st).

Definition set_pos (st : ParsingState) (v : nat) : ParsingState :=
  mkState (st_origin st) (st_data st) (st_type st) (st_lastEventId st) v.

(** ** The stream parser *)

(** The parser works on the slots and the parsing state and hands message
    events to [queue]; [Parsed] is that triple, the events in queueing
    order. *)
Definition Parsed := (Slots * ParsingState * list MessageEvent)%type.

Definition processField (slots : Slots) (state : ParsingState)
           (fieldName fieldValue : jsstring) : Slots * ParsingState :=
  let name := toLowerCase fieldName in
  if JS.eqb name (str "event") then
    (slots, set_type state fieldValue)
  else if JS.eqb name (str "data") then
    (slots, set_data state ((st_data state ++ fieldValue) ++ [LF]))
  else if JS.eqb name (str "id") then
    if negb (includes fieldValue NUL)
    then (slots, set_st_lastEventId state (Some fieldValue))
    else (slots, state)
  else if JS.eqb name (str "retry") then
    if DIGITS_test fieldValue
    then (set_reconnectionTime slots (inject_Z (Z.of_N (parseInt fieldValue))),
          state)
    else (slots, state)
  else (slots, state).

Definition dispatchMessage (slots : Slots) (state : ParsingState) : Parsed :=
  let data := st_data state in
  let type := st_type state in
  let lastEventId' := st_lastEventId state in
  let state := set_type (set_data state []) [] in
  let slots :=
    match lastEventId' with
    | Some i => set_lastEventId slots i
    | None => slots
    end in
  if JS.eqb data [] then (slots, state, [])
  else
    let event :=
      mkMessageEvent (if JS.eqb type [] then str "message" else type)
                     (slice_drop_last data) (st_origin state)
                     (lastEventId slots) in
    (slots, state, [event]).

(** The body of the [while] loop of [parseStream] for one matched line,
    after [state.pos = LINE.lastIndex]. *)
Definition parseLine (slots : Slots) (state : ParsingState) (line : jsstring)
  : Parsed :=
  let colonPos := indexOf line COLON in
  if JS.eqb line [] then dispatchMessage slots state
  else match colonPos with
       | None => (* colonPos === -1 *)
           let '(slots, state) := processField slots state line [] in
           (slots, state, [])
       | Some 0 => (slots, state, [])
       | Some (S _ as colonPos) => (* colonPos >= 1 *)
           let name := slice_to line colonPos in
           let value :=
             slice_from line
               (colonPos + (if unit_at_is line (colonPos + 1) SPACE
                            then 2 else 1)) in
           let '(slots, state) := processField slots state name value in
           (slots, state, [])
       end.

(** The [while ((match = LINE.exec(buffer)) != null)] loop.  Every match
    consumes at least the terminator, so [fuel] bounds the iterations. *)
Fixpoint parseLoop (fuel : nat) (buffer : jsstring)
         (slots : Slots) (state : ParsingState) : Parsed :=
  match fuel with
  | 0 => (slots, state, [])
  | S fuel' =>
      match LINE_exec buffer (st_pos state) with
      | None => (slots, state, [])
      | Some (line, lastIndex) =>
          let state := set_pos state lastIndex in
          let '(slots, state, evs) := parseLine slots state line in
          let '(slots, state, evs') := parseLoop fuel' buffer slots state in
          (slots, state, evs ++ evs')
      end
  end.

Definition parseStream (slots : Slots) (state : ParsingState)
           (buffer : jsstring) : Parsed :=
  parseLoop (S (length buffer)) buffer slots state.

(** ** The connection manager *)

(** The closure of one [createConnection] call that got as far as making a
    request: its [state] object and [first] flag, what the transport knows
    of the request ([inflight]: sent and not yet loaded, failed or aborted)
    and the [Last-Event-ID] header it was sent with. *)
Record Request := mkRequest {
  state : ParsingState;
  first : bool;
  inflight : bool;
  header_LastEventID : option jsstring }.

(** What [source.dispatchEvent] delivers to the consumer.  A message
    carries the index of the request whose response it was parsed from;
    nothing in the module reads that index. *)
Inductive Notification :=
| NOpen
| NError
| NMessage (r : nat) (e : MessageEvent).

(** The closures handed to [queue], one constructor per call site. *)
Inductive Task :=
| TAnnounce                           (* announceConnection *)
| TReestablish                        (* reestablishConnection, first *)
| TReconnect                          (* reestablishConnection, in the timer *)
| TFail                               (* failConnection *)
| TMessage (r : nat) (e : MessageEvent). (* dispatchMessage *)

Record World := mkWorld {
  reconnectionTimeIncreasingRate : Q;  (* module variable *)
  maxBufferSize : Q;                   (* module variable *)
  onLine : bool;                       (* window.navigator.onLine *)
  slots : Slots;
  requests : list Request;
  tasks : list Task;                   (* queued, oldest first *)
  timers : list Q;                     (* pending setTimeout delays *)
  listeners : nat;                     (* registered "online" listeners *)
  delivered : list Notification }.     (* dispatched, oldest first *)

Definition set_rate (w : World) (v : Q) : World :=
  mkWorld v (maxBufferSize w) (onLine w) (slots w) (requests w) (tasks w)
          (timers w) (listeners w) (delivered w).

Definition set_maxBufferSize (w : World) (v : Q) : World :=
  mkWorld (reconnectionTimeIncreasingRate w) v (onLine w) (slots w)
          (requests w) (tasks w) (timers w) (listeners w) (delivered w).

Definition set_onLine (w : World) (v : bool) : World :=
  mkWorld (reconnectionTimeIncreasingRate w) (maxBufferSize w) v (slots w)
          (requests w) (tasks w) (timers w) (listeners w) (delivered w).

Definition set_slots (w : World) (v : Slots) : World :=
  mkWorld (reconnectionTimeIncreasingRate w) (maxBufferSize w) (onLine w) v
          (requests w) (tasks w) (timers w) (listeners w) (delivered w).

Definition set_requests (w : World) (v : list Request) : World :=
  mkWorld (reconnectionTimeIncreasingRate w) (maxBufferSize w) (onLine w)
          (slots w) v (tasks w) (timers w) (listeners w) (delivered w).

Definition set_tasks (w : World) (v : list Task) : World :=
  mkWorld (reconnectionTimeIncreasingRate w) (maxBufferSize w) (onLine w)
          (slots w) (requests w) v (timers w) (listeners w) (delivered w).

Definition set_timers (w : World) (v : list Q) : World :=
  mkWorld (reconnectionTimeIncreasingRate w) (maxBufferSize w) (onLine w)
          (slots w) (requests w) (tasks w) v (listeners w) (delivered w).

Definition set_listeners (w : World) (v : nat) : World :=
  mkWorld (reconnectionTimeIncreasingRate w) (maxBufferSize w) (onLine w)
          (slots w) (requests w) (tasks w) (timers w) v (delivered w).

Definition set_delivered (w : World) (v : list Notification) : World :=
  mkWorld (reconnectionTimeIncreasingRate w) (maxBufferSize w) (onLine w)
          (slots w) (requests w) (tasks w) (timers w) (listeners w) v.

(** [queue(f)]: FIFO. *)
Definition queue (w : World) (t : Task) : World :=
  set_tasks w (tasks w ++ [t]).

(** [source.dispatchEvent(event)]. *)
Definition dispatchEvent (w : World) (n : Notification) : World :=
  set_delivered w (delivered w ++ [n]).

(** Replace the closure of request [r]. *)
Fixpoint update_request (rs : list Request) (r : nat) (q : Request)
  : list Request :=
  match rs, r with
  | [], _ => []
  | _ :: rs', 0 => q :: rs'
  | x :: rs', S r' => x :: update_request rs' r' q
  end.

Definition set_first (q : Request) (v : bool) : Request :=
  mkRequest (state q) v (inflight q) (header_LastEventID q).

Definition set_state (q : Request) (v : ParsingState) : Request :=
  mkRequest v (first q) (inflight q) (header_LastEventID q).

Definition set_inflight (q : Request) (v : bool) : Request :=
  mkRequest (state q) (first q) v (header_LastEventID q).

(** The transport is done with request [r] (load, error or abort). *)
Definition settle (w : World) (r : nat) : World :=
  match nth_error (requests w) r with
  | Some q => set_requests w (update_request (requests w) r (set_inflight q false))
  | None => w
  end.

Definition createConnection (w : World) : World :=
  if negb (onLine w) then
    (* window.addEventListener("online", listener); return *)
    set_listeners w (S (listeners w))
  else
    let state0 := mkState [] [] [] None 0 in
    let r := length (requests w) in
    let header :=
      if JS.eqb (lastEventId (slots w)) [] then None
      else Some (lastEventId (slots w)) in
    let w := set_slots w (set_request (slots w) (Some r)) in
    set_requests w (requests w ++ [mkRequest state0 true true header]).

(** [request.onabort]. *)
Definition onabort (w : World) : World :=
  if negb (ReadyState_eqb (readyState (slots w)) CLOSED) then
    createConnection (set_slots w (set_request (slots w) None))
  else w.

(** [request.abort()] on request [r]: an in-flight request fires its
    abort event synchronously, a settled one does nothing. *)
Definition request_abort (w : World) (r : nat) : World :=
  match nth_error (requests w) r with
  | Some q => if inflight q then onabort (settle w r) else w
  | None => w
  end.

Definition close (w : World) : World :=
  let request' := request (slots w) in
  let w := set_slots w (set_readyState (slots w) CLOSED) in
  let w := set_slots w (set_request (slots w) None) in
  match request' with
  | Some r => request_abort w r
  | None => w
  end.

Definition announceConnection (w : World) : World :=
  let w := queue w TAnnounce in
  set_slots w (set_additionalReconnectionTime (slots w) 0%Q).

Definition reestablishConnection (w : World) : World :=
  let w := queue w TReestablish in
  let w :=
    set_timers w
      (timers w ++
       [(reconnectionTime (slots w) + additionalReconnectionTime (slots w))%Q])
  in
  set_slots w
    (set_additionalReconnectionTime (slots w)
       (reconnectionTimeIncreasingRate w *
        (reconnectionTime (slots w) + additionalReconnectionTime (slots w)) -
        reconnectionTime (slots w))%Q).

Definition failConnection (w : World) : World := queue w TFail.

(** One queued closure, run by the event loop. *)
Definition run_task (w : World) (t : Task) : World :=
  let open := negb (ReadyState_eqb (readyState (slots w)) CLOSED) in
  match t with
  | TAnnounce =>
      if open then
        dispatchEvent (set_slots w (set_readyState (slots w) OPEN)) NOpen
      else w
  | TReestablish =>
      if open then
        dispatchEvent (set_slots w (set_readyState (slots w) CONNECTING)) NError
      else w
  | TReconnect =>
      if ReadyState_eqb (readyState (slots w)) CONNECTING
      then createConnection w else w
  | TFail =>
      if open then dispatchEvent (close w) NError else w
  | TMessage r e =>
      if open then dispatchEvent w (NMessage r e) else w
  end.

(** The first-chunk test of [request.onprogress]. *)
Definition valid_response (status : nat) (contentType : option jsstring)
  : bool :=
  (status =? 200) &&
  match contentType with
  | Some ct => startsWith (toLowerCase ct) (str "text/event-stream")
  | None => false
  end.

(** [request.onprogress] of request [r], up to and including the call of
    [parseStream].  The transport supplies [request.status], the
    Content-Type header, the parsed [responseURL] ([None] when it is empty)
    and [request.responseText].  The boolean tells whether the handler got
    past [parseStream], to the buffer check. *)
Definition progress_chunk (w : World) (r : nat) (status : nat)
           (contentType : option jsstring) (responseURL : option URL)
           (responseText : jsstring) : World * bool :=
  match nth_error (requests w) r with
  | None => (w, false)
  | Some q =>
      if ReadyState_eqb (readyState (slots w)) CLOSED || (status =? 0)
      then (w, false)
      else
        let verify :=
          if first q then
            let q := set_first q false in
            if valid_response status contentType then
              let a := match responseURL with
                       | Some a => a
                       | None => url (slots w)
                       end in
              let q :=
                set_state q
                  (set_origin (state q)
                     (protocol a ++ str "//" ++ host a)) in
              (announceConnection
                 (set_requests w (update_request (requests w) r q)), q, true)
            else
              (failConnection
                 (set_requests w (update_request (requests w) r q)), q, false)
          else (w, q, true) in
        let '(w, q, go) := verify in
        if negb go then (w, false)
        else
          let '(slots', state', evs) :=
            parseStream (slots w) (state q) responseText in
          let w := set_slots w slots' in
          let w :=
            set_requests w
              (update_request (requests w) r (set_state q state')) in
          (set_tasks w (tasks w ++ List.map (TMessage r) evs), true)
  end.

(** [request.responseText.length > maxBufferSize]. *)
Definition buffer_exceeded (w : World) (responseText : jsstring) : bool :=
  negb (Qle_bool (inject_Z (Z.of_nat (length responseText)))
                 (maxBufferSize w)).

(** [request.onprogress]: the chunk, then the buffer check and its
    [request.abort()]. *)
Definition onprogress (w : World) (r : nat) (status : nat)
           (contentType : option jsstring) (responseURL : option URL)
           (responseText : jsstring) : World :=
  let '(w, parsed) :=
    progress_chunk w r status contentType responseURL responseText in
  if parsed && buffer_exceeded w responseText
  then request_abort w r
  else w.

(** [request.onload] of request [r]. *)
Definition onload (w : World) (r : nat) (status : nat) : World :=
  match nth_error (requests w) r with
  | None => w
  | Some q =>
      if ReadyState_eqb (readyState (slots w)) CLOSED || (status =? 0) then w
      else
        let w := set_slots w (set_request (slots w) None) in
        let w := if status =? 200 then reestablishConnection w else w in
        if (status =? 204) && first q then failConnection w else w
  end.

(** [request.onerror]. *)
Definition onerror (w : World) : World :=
  if negb (ReadyState_eqb (readyState (slots w)) CLOSED) then
    reestablishConnection (set_slots w (set_request (slots w) None))
  else w.

(** The listener that [createConnection] registers for "online". *)
Definition online_listener (w : World) : World :=
  if negb (ReadyState_eqb (readyState (slots w)) CLOSED)
  then createConnection w else w.

(** Remove the [i]-th pending timer. *)
Fixpoint remove_nth {A} (l : list A) (i : nat) : list A :=
  match l, i with
  | [], _ => []
  | _ :: l', 0 => l'
  | x :: l', S i' => x :: remove_nth l' i'
  end.

(** [setReconnectionTimeIncreasingRate] and [setMaxBufferSize]: a rejected
    value throws and leaves the module variable as it was.  Every rational
    is finite. *)
Definition setReconnectionTimeIncreasingRate (w : World) (value : Q) : World :=
  if Qle_bool value 1 then w else set_rate w value.

Definition setMaxBufferSize (w : World) (value : Q) : World :=
  if Qle_bool value 0 then w else set_maxBufferSize w value.

(** Everything that can happen to one [EventSource]. *)
Inductive Event :=
| EClose                         (* the consumer calls close() *)
| EProgress (r status : nat) (contentType : option jsstring)
            (responseURL : option URL) (responseText : jsstring)
| ELoad (r status : nat)
| EError (r : nat)
| EAbort (r : nat)               (* an abort not made by the module *)
| ERunTask                       (* the oldest queued closure runs *)
| ETimer (i : nat)               (* the i-th pending timer fires *)
| ENavigatorOnLine (b : bool)    (* navigator.onLine changes *)
| EOnline                        (* window fires "online" *)
| ESetRate (value : Q)
| ESetMaxBufferSize (value : Q).

Definition step (w : World) (e : Event) : World :=
  match e with
  | EClose => close w
  | EProgress r status ct u text => onprogress w r status ct u text
  | ELoad r status => onload (settle w r) r status
  | EError r =>
      match nth_error (requests w) r with
      | Some _ => onerror (settle w r)
      | None => w
      end
  | EAbort r =>
      match nth_error (requests w) r with
      | Some _ => onabort (settle w r)
      | None => w
      end
  | ERunTask =>
      match tasks w with
      | [] => w
      | t :: ts => run_task (set_tasks w ts) t
      end
  | ETimer i =>
      match nth_error (timers w) i with
      | Some _ => queue (set_timers w (remove_nth (timers w) i)) TReconnect
      | None => w
      end
  | ENavigatorOnLine b => set_onLine w b
  | EOnline =>
      Nat.iter (listeners w) online_listener (set_listeners w 0)
  | ESetRate v => setReconnectionTimeIncreasingRate w v
  | ESetMaxBufferSize v => setMaxBufferSize w v
  end.

Definition run (w : World) (es : list Event) : World := fold_left step es w.

(** [new EventSource(url, options)] with a valid URL: [internalSlots.init]
    then [createConnection]. *)
Definition init (defaultReconnectionTime rate maxBuffer : Q) (online : bool)
           (u : URL) (credentials : bool) : World :=
  createConnection
    (mkWorld rate maxBuffer online
       (mkSlots u None defaultReconnectionTime [] credentials CONNECTING 0%Q)
       [] [] [] 0 []).


(** * Vocabulary of the statements *)

Definition is_terminator (c : jschar) : bool := N.eqb c CR || N.eqb c LF.

(** A line body: no CR, no LF. *)
Definition no_terminator (l : jsstring) : bool :=
  forallb (fun c => negb (is_terminator c)) l.

(** [processField] and [dispatchMessage] write two slots only:
    [reconnectionTime] and [lastEventId]. *)
Definition same_connection (a b : Slots) : Prop :=
  url b = url a /\ request b = request a /\
  withCredentials b = withCredentials a /\
  readyState b = readyState a /\
  additionalReconnectionTime b = additionalReconnectionTime a.


(** The state object of a fresh [createConnection] call. *)
Definition state0 : ParsingState := mkState [] [] [] None 0.

(** Successive calls of [parseStream] on growing cumulative buffers, as
    [request.onprogress] makes them, with the events queued along the
    way. *)
Definition feed (p : Parsed) (buffer : jsstring) : Parsed :=
  let '(slots, state, evs) := p in
  let '(slots, state, evs') := parseStream slots state buffer in
  (slots, state, evs ++ evs').

Definition feed_all (slots : Slots) (state : ParsingState)
           (buffers : list jsstring) : Parsed :=
  fold_left feed buffers (slots, state, []).

(** A field: its name and its value. *)
Definition Field := (jsstring * jsstring)%type.

(** The three kinds of non-empty line of an event stream: a comment (a
    colon first), a name alone, and a name, a colon, an optional space and
    a value. *)
Inductive Line :=
| Comment (text : jsstring)
| Bare (name : jsstring)
| Pair (name : jsstring) (space : bool) (value : jsstring).

Inductive Terminator := T_CR | T_LF | T_CRLF.

Definition render_terminator (t : Terminator) : jsstring :=
  match t with
  | T_CR => [CR]
  | T_LF => [LF]
  | T_CRLF => [CR; LF]
  end.

Definition render_line (l : Line) : jsstring :=
  match l with
  | Comment text => COLON :: text
  | Bare name => name
  | Pair name space value =>
      name ++ COLON :: (if space then SPACE :: value else value)
  end.

(** A name is not empty and has no colon; no part holds a line
    terminator; a value written without the optional space does not start
    with a space. *)
Definition wf_name (name : jsstring) : bool :=
  negb (JS.eqb name []) && negb (includes name COLON) && no_terminator name.

Definition wf_line (l : Line) : bool :=
  match l with
  | Comment text => no_terminator text
  | Bare name => wf_name name
  | Pair name space value =>
      wf_name name && no_terminator value &&
      (space || negb (unit_at_is value 0 SPACE))
  end.

(** The text goes on with an LF. *)
Definition starts_with_LF (s : jsstring) : bool := unit_at_is s 0 LF.

(** The field that a line stands for. *)
Definition field_of (l : Line) : option Field :=
  match l with
  | Comment _ => None
  | Bare name => Some (name, [])
  | Pair name _ value => Some (name, value)
  end.

Fixpoint fields_of (ls : list (Line * Terminator)) : list Field :=
  match ls with
  | [] => []
  | (l, _) :: ls' =>
      match field_of l with
      | Some f => f :: fields_of ls'
      | None => fields_of ls'
      end
  end.

(** An event block: lines, each with its terminator, then a blank line
    with its own. *)
Fixpoint block_text (ls : list (Line * Terminator)) (blank : Terminator)
  : jsstring :=
  match ls with
  | [] => render_terminator blank
  | (l, t) :: ls' =>
      render_line l ++ render_terminator t ++ block_text ls' blank
  end.

(** The lines are well formed, and the text is not ambiguous: a last line
    closed by CR is not followed by a blank line closed by LF (that would
    read as one CRLF). *)
Fixpoint wf_block (ls : list (Line * Terminator)) (blank : Terminator)
  : bool :=
  match ls with
  | [] => true
  | (l, t) :: ls' =>
      wf_line l &&
      match t, ls', blank with
      | T_CR, [], T_LF => false
      | _, _, _ => true
      end &&
      wf_block ls' blank
  end.

Definition named (k : jsstring) (f : Field) : bool :=
  JS.eqb (toLowerCase (fst f)) k.

(** The values of the [data] fields of a block, in order. *)
Definition data_values (fs : list Field) : list jsstring :=
  List.map snd (filter (named (str "data")) fs).

(** Values joined by a newline. *)
Fixpoint join_LF (vs : list jsstring) : jsstring :=
  match vs with
  | [] => []
  | [v] => v
  | v :: vs' => v ++ LF :: join_LF vs'
  end.

(** The pending event type after a block: the last [event] value. *)
Definition pending_type (fs : list Field) : jsstring :=
  last (List.map snd (filter (named (str "event")) fs)) [].

(** The pending id after a block: the last [id] value without NUL, or what
    was pending before the block. *)
Definition pending_id (fs : list Field) (before : option jsstring)
  : option jsstring :=
  last (List.map (fun f => Some (snd f))
          (filter (fun f => named (str "id") f && negb (includes (snd f) NUL))
                  fs))
       before.

(** The fields of a block, given to [processField] in order. *)
Definition process_fields (fs : list Field) (p : Slots * ParsingState)
  : Slots * ParsingState :=
  fold_left (fun p f => processField (fst p) (snd p) (fst f) (snd f)) fs p.

(** What the [data] fields of a block accumulate in [state.data]: every
    value followed by a newline. *)
Definition data_lines (vs : list jsstring) : jsstring :=
  concat (List.map (fun v => v ++ [LF]) vs).



(** ** Sample values *)

Definition example_url : URL :=
  mkURL (str "http://localhost/events") (str "http:") (str "localhost").

Definition example_slots : Slots :=
  mkSlots example_url (Some 0) 4000%Q [] false OPEN 0%Q.

(** A fresh [EventSource] with the module defaults (4000 ms, rate 1.5,
    64 KiB), online. *)
Definition example_world : World :=
  init 4000%Q (3 # 2)%Q 65536%Q true example_url false.

Definition example_contentType : option jsstring :=
  Some (str "text/event-stream").

Definition example_block : list (Line * Terminator) :=
  [(Pair (str "data") true (str "one"), T_CRLF);
   (Comment (str " a comment"), T_LF);
   (Pair (str "Event") false (str "hello"), T_CR);
   (Bare (str "data"), T_LF);
   (Pair (str "id") true (str "7"), T_CR);
   (Pair (str "DATA") true (str " two"), T_CR)].

(** The stream "data: x", CRLF, "data: y", LF, LF, and the prefix of it
    that ends between the CR and the LF. *)
Definition crlf_stream : jsstring :=
  str "data: x" ++ [CR; LF] ++ str "data: y" ++ [LF; LF].

Definition crlf_stream_cut : jsstring := str "data: x" ++ [CR].

(** The stream "data: x", LF, LF with and without a leading BOM. *)
Definition plain_stream : jsstring := str "data: x" ++ [LF; LF].

(** Three network failures in a row, each followed by the queued closure,
    the timer and the reconnection it queues. *)
Definition three_losses : list Event :=
  [EError 0; ERunTask; ETimer 0; ERunTask;
   EError 1; ERunTask; ETimer 0; ERunTask;
   EError 2].

(** The steps of [readyState] that the life cycle allows. *)
Definition allowed_transition (a b : ReadyState) : Prop :=
  a = b \/
  (a = CONNECTING /\ b = OPEN) \/ (a = OPEN /\ b = CONNECTING) \/
  (a = CONNECTING /\ b = CLOSED) \/ (a = OPEN /\ b = CLOSED).

(** Nothing visible to the consumer changed: neither [readyState] nor the
    notifications delivered. *)
Definition same_phase (w w' : World) : Prop :=
  readyState (slots w') = readyState (slots w) /\
  delivered w' = delivered w.

(** A step that schedules nothing, delivers nothing and leaves the timers,
    the backoff accumulator and [readyState] alone. *)
Definition silent (w w' : World) : Prop :=
  same_phase w w' /\
  tasks w' = tasks w /\
  timers w' = timers w /\
  additionalReconnectionTime (slots w') =
    additionalReconnectionTime (slots w).

(** The closures whose run can dispatch an "error" event. *)
Definition error_task (t : Task) : bool :=
  match t with
  | TReestablish | TFail => true
  | _ => false
  end.

(** A world whose buffer limit the stream "data: x\n\n" exceeds. *)
Definition small_buffer_world : World := set_maxBufferSize example_world 4%Q.

(** ** Which response a message came from *)

Definition from_request (r : nat) (t : Task) : bool :=
  match t with
  | TMessage r' _ => r' =? r
  | _ => false
  end.

Definition message_from (r : nat) (n : Notification) : bool :=
  match n with
  | NMessage r' _ => r' =? r
  | _ => false
  end.

(** Request [r] has not seen its first progress event, or is yet to be
    made. *)
Definition fresh_in (rs : list Request) (r : nat) : Prop :=
  match nth_error rs r with
  | Some q => first q = true
  | None => True
  end.

Definition fresh (r : nat) (w : World) : Prop := fresh_in (requests w) r.

(** No message of request [r] is queued or was delivered. *)
Definition no_message (r : nat) (w : World) : Prop :=
  existsb (from_request r) (tasks w) = false /\
  existsb (message_from r) (delivered w) = false.

(** A fresh request has no message anywhere. *)
Definition clean (w : World) : Prop :=
  forall r : nat, fresh r w -> no_message r w.

(** The fail closure is queued, and no message of request [r] is queued
    ahead of it. *)
Fixpoint fail_first (r : nat) (ts : list Task) : bool :=
  match ts with
  | [] => false
  | TFail :: _ => true
  | t :: ts' => negb (from_request r t) && fail_first r ts'
  end.

(** Request [r] will never be heard of: none of its messages was
    delivered, and the connection is CLOSED or will be before any of them
    is run. *)
Definition doomed (r : nat) (w : World) : Prop :=
  existsb (message_from r) (delivered w) = false /\
  (readyState (slots w) = CLOSED \/ fail_first r (tasks w) = true).

(** A step that delivers nothing and only appends closures, none of them
    a message of a request that is still fresh afterwards. *)
Definition extends (w w' : World) : Prop :=
  (forall r : nat, fresh r w' -> fresh r w) /\
  delivered w' = delivered w /\
  exists ts : list Task,
    tasks w' = tasks w ++ ts /\
    forall r : nat, fresh r w' -> existsb (from_request r) ts = false.

(** ** Chunked delivery *)

(** The text ends with a CR. *)
Definition ends_with_CR (s : jsstring) : bool :=
  match rev s with
  | c :: _ => N.eqb c CR
  | [] => false
  end.

(** The cumulative buffers that the chunks [chunks] give after the text
    [acc]: what [request.responseText] holds at each progress event. *)
Fixpoint cumulative (acc : jsstring) (chunks : list jsstring)
  : list jsstring :=
  match chunks with
  | [] => []
  | c :: cs => (acc ++ c) :: cumulative (acc ++ c) cs
  end.

(** No chunk boundary falls between a CR and an LF. *)
Fixpoint safe_chunks (acc : jsstring) (chunks : list jsstring) : bool :=
  match chunks with
  | [] => true
  | c :: cs =>
      negb (ends_with_CR acc && starts_with_LF c) &&
      safe_chunks (acc ++ c) cs
  end.

(** * Further vocabulary *)

From Stdlib Require Import DecimalN.

(** A field that [processField] has no use for: a name that is none of
    the four, an [id] value with a NUL, a [retry] value that is not a
    string of digits. *)
Definition known_name (name : jsstring) : bool :=
  let n := toLowerCase name in
  JS.eqb n (str "event") || JS.eqb n (str "data") ||
  JS.eqb n (str "id") || JS.eqb n (str "retry").

(** The decimal numeral of a number, as the server writes it. *)
Fixpoint units_of_uint (d : Decimal.uint) : jsstring :=
  match d with
  | Decimal.Nil => []
  | Decimal.D0 d' => 48%N :: units_of_uint d'
  | Decimal.D1 d' => 49%N :: units_of_uint d'
  | Decimal.D2 d' => 50%N :: units_of_uint d'
  | Decimal.D3 d' => 51%N :: units_of_uint d'
  | Decimal.D4 d' => 52%N :: units_of_uint d'
  | Decimal.D5 d' => 53%N :: units_of_uint d'
  | Decimal.D6 d' => 54%N :: units_of_uint d'
  | Decimal.D7 d' => 55%N :: units_of_uint d'
  | Decimal.D8 d' => 56%N :: units_of_uint d'
  | Decimal.D9 d' => 57%N :: units_of_uint d'
  end.

Definition decimal (n : N) : jsstring := units_of_uint (N.to_uint n).

(** Chunks that cut a stream inside a line and after a CRLF, never
    between a CR and its LF. *)
Definition example_chunks : list jsstring :=
  [str "data: x" ++ [CR; LF]; str "da"; str "ta: y" ++ [LF]; [LF]].

(** A line that the parser has no use for: a comment, a field whose name
    is none of the four, an [id] whose value holds a NUL, a [retry] whose
    value is empty or holds a unit that is not a digit. *)
Definition unusable (l : Line) : bool :=
  match field_of l with
  | None => true
  | Some (name, value) =>
      negb (known_name name) ||
      (JS.eqb (toLowerCase name) (str "id") && includes value NUL) ||
      (JS.eqb (toLowerCase name) (str "retry") &&
       (JS.eqb value [] || existsb (fun c => negb (is_digit c)) value))
  end.

(** What outlives a response: the resumption id and the reconnection
    time; and what never changes: the URL and the credentials flag. *)
Definition same_resumption (w w' : World) : Prop :=
  lastEventId (slots w') = lastEventId (slots w) /\
  reconnectionTime (slots w') = reconnectionTime (slots w).

Definition same_identity (w w' : World) : Prop :=
  url (slots w') = url (slots w) /\
  withCredentials (slots w') = withCredentials (slots w).

Definition is_progress (e : Event) : bool :=
  match e with
  | EProgress _ _ _ _ _ => true
  | _ => false
  end.

(** The [Last-Event-ID] header of a request made when the slot holds
    [lid]: none for the empty string. *)
Definition header_for (lid : jsstring) : option jsstring :=
  if JS.eqb lid [] then None else Some lid.

(** A request as [createConnection] makes it. *)
Definition new_request (lid : jsstring) : Request :=
  mkRequest state0 true true (header_for lid).

(** The origin that [request.onprogress] records on a valid first chunk:
    that of [responseURL], or of the request URL when it is empty. *)
Definition response_origin (w : World) (responseURL : option URL)
  : jsstring :=
  let a := match responseURL with
           | Some a => a
           | None => url (slots w)
           end in
  protocol a ++ str "//" ++ host a.

(** The events that the first chunk [text] of a valid response to request
    [q] holds. *)
Definition first_chunk_events (w : World) (q : Request)
           (responseURL : option URL) (text : jsstring)
  : list MessageEvent :=
  snd (parseStream (set_additionalReconnectionTime (slots w) 0%Q)
                   (set_origin (state q) (response_origin w responseURL))
                   text).




(** ** One connection at a time *)

(** The transport delivers progress, load, error and abort events only
    for a request that is in flight. *)
Definition transport_ok (w : World) (e : Event) : bool :=
  match e with
  | EProgress r _ _ _ _ | ELoad r _ | EError r | EAbort r =>
      match nth_error (requests w) r with
      | Some q => inflight q
      | None => false
      end
  | _ => true
  end.

Fixpoint well_behaved (w : World) (es : list Event) : bool :=
  match es with
  | [] => true
  | e :: es' => transport_ok w e && well_behaved (step w e) es'
  end.

Definition in_flight (rs : list Request) : nat :=
  length (filter inflight rs).

Definition is_reconnect (t : Task) : bool :=
  match t with
  | TReconnect => true
  | _ => false
  end.

Definition reconnects (ts : list Task) : nat :=
  length (filter is_reconnect ts).

(** What can lead to traffic: requests in flight, registered "online"
    listeners, pending timers and queued reconnections. *)
Definition pending (w : World) : nat :=
  in_flight (requests w) + listeners w + length (timers w) +
  reconnects (tasks w).

(** When a request is in flight, [slots.request] is one. *)
Definition current (w : World) : Prop :=
  in_flight (requests w) = 0 \/
  exists (r : nat) (q : Request),
    request (slots w) = Some r /\ nth_error (requests w) r = Some q /\
    inflight q = true.

Definition single (w : World) : Prop := pending w <= 1 /\ current w.

Arguments in_flight : simpl never.
Arguments reconnects : simpl never.
Arguments pending : simpl never.

(** A session of a well-behaved transport: a first chunk, its closures, the
    end of the response, the reconnection and a chunk of the new
    response. *)
Definition example_session : list Event :=
  [EProgress 0 200 example_contentType None plain_stream; ERunTask; ERunTask;
   ELoad 0 200; ERunTask; ETimer 0; ERunTask;
   EProgress 1 200 example_contentType None plain_stream].

(** ** Open comes first *)

(** The closures that open the connection or fail it. *)
Definition is_guard (t : Task) : bool :=
  match t with
  | TAnnounce | TFail => true
  | _ => false
  end.

Definition is_message (t : Task) : bool :=
  match t with
  | TMessage _ _ => true
  | _ => false
  end.

(** A message closure is queued ahead of every announce and fail
    closure. *)
Fixpoint unguarded (ts : list Task) : bool :=
  match ts with
  | [] => false
  | TMessage _ _ :: _ => true
  | TAnnounce :: _ => false
  | TFail :: _ => false
  | _ :: ts' => unguarded ts'
  end.

(** Every "message" notification has an "open" before it. *)
Definition open_first (l : list Notification) : Prop :=
  forall (pre : list Notification) (r : nat) (e : MessageEvent)
         (post : list Notification),
    l = pre ++ NMessage r e :: post -> In NOpen pre.

(** The connection was opened once, or is closed for good. *)
Definition past_opening (w : World) : Prop :=
  readyState (slots w) = CLOSED \/ In NOpen (delivered w).

(** Before the first "open": no message closure is ahead of the closure
    that opens or fails the connection, and that closure is queued as soon
    as a response was looked at. *)
Definition announced (w : World) : Prop :=
  past_opening w \/
  (unguarded (tasks w) = false /\
   (forallb first (requests w) = true \/
    existsb is_guard (tasks w) = true)).

Definition ordered (w : World) : Prop :=
  open_first (delivered w) /\ announced w.

(** A step that delivers nothing, reopens nothing, queues no message and
    looks at no response. *)
Definition quiet (w w' : World) : Prop :=
  (readyState (slots w) = CLOSED -> readyState (slots w') = CLOSED) /\
  delivered w' = delivered w /\
  (exists ts : list Task,
      tasks w' = tasks w ++ ts /\ existsb is_message ts = false) /\
  (forallb first (requests w) = true -> forallb first (requests w') = true).

(** The message of the stream "data: x", LF, LF read from [example_url]. *)
Definition example_message : MessageEvent :=
  mkMessageEvent (str "message") (str "x") (str "http://localhost") [].
(** * Properties of the parser *)

(** ** String equality *)

Lemma eqb_spec (a b : jsstring) : reflect (a = b) (JS.eqb a b).
Proof.
  revert b; induction a as [|x a IH]; intros [|y b]; simpl;
    try (constructor; congruence).
  destruct (N.eqb_spec x y) as [->|Hxy]; simpl.
  - destruct (IH b) as [->|Hab]; constructor; congruence.
  - constructor; congruence.
Qed.

Lemma eqb_refl (a : jsstring) : JS.eqb a a = true.
Proof. destruct (eqb_spec a a); congruence. Qed.


(** ** Line matching *)

Lemma LINE_match_LF (line rest : jsstring) :
  no_terminator line = true ->
  LINE_match (line ++ LF :: rest) = Some (line, S (length line)).
Proof.
  induction line as [|c line IH]; simpl; intros H.
  - reflexivity.
  - apply andb_prop in H as [Hc Hl].
    unfold is_terminator in Hc. apply negb_true_iff, orb_false_iff in Hc.
    destruct Hc as [-> ->]. now rewrite (IH Hl).
Qed.

(** When the pattern does not match at an index it matches at no later
    one: the search of [exec] never skips text. *)
Lemma LINE_match_None_tail (c : jschar) (s : jsstring) :
  LINE_match (c :: s) = None -> LINE_match s = None.
Proof.
  simpl. destruct (N.eqb c CR).
  - destruct s as [|c' s]; [discriminate|]. destruct (N.eqb c' LF); discriminate.
  - destruct (N.eqb c LF); [discriminate|].
    destruct (LINE_match s) as [[l n]|]; [discriminate|reflexivity].
Qed.

Lemma LINE_search_unfold (s : jsstring) (i : nat) :
  LINE_search s i =
  match LINE_match s with
  | Some (l, n) => Some (l, i + n)
  | None => match s with
            | [] => None
            | _ :: s' => LINE_search s' (S i)
            end
  end.
Proof. destruct s; reflexivity. Qed.

Lemma LINE_search_None (s : jsstring) (i : nat) :
  LINE_match s = None -> LINE_search s i = None.
Proof.
  revert i; induction s as [|c s IH]; intros i H.
  - reflexivity.
  - rewrite LINE_search_unfold, H.
    apply IH. now apply LINE_match_None_tail with c.
Qed.

(** [exec] matches at [lastIndex] itself or not at all. *)
Lemma LINE_search_match (s : jsstring) (i : nat) :
  LINE_search s i =
  match LINE_match s with
  | Some (l, n) => Some (l, i + n)
  | None => None
  end.
Proof.
  destruct (LINE_match s) as [[l n]|] eqn:E.
  - now rewrite LINE_search_unfold, E.
  - now apply LINE_search_None.
Qed.

Lemma LINE_exec_at (pre s : jsstring) :
  LINE_exec (pre ++ s) (length pre) =
  match LINE_match s with
  | Some (l, n) => Some (l, length pre + n)
  | None => None
  end.
Proof.
  unfold LINE_exec.
  replace (length (pre ++ s) <? length pre) with false.
  - rewrite skipn_app, skipn_all, Nat.sub_diag. simpl.
    apply LINE_search_match.
  - symmetry. apply Nat.ltb_ge. rewrite length_app. lia.
Qed.

Lemma LINE_exec_end (buffer : jsstring) :
  LINE_exec buffer (length buffer) = None.
Proof.
  rewrite <- (app_nil_r buffer) at 1. now rewrite LINE_exec_at.
Qed.

(** ** What the parser leaves alone *)

Lemma same_connection_refl (a : Slots) : same_connection a a.
Proof. now repeat split. Qed.

Lemma same_connection_trans (a b c : Slots) :
  same_connection a b -> same_connection b c -> same_connection a c.
Proof.
  unfold same_connection. intros (?&?&?&?&?) (?&?&?&?&?).
  repeat split; congruence.
Qed.

Lemma processField_same (slots : Slots) (st : ParsingState)
      (name value : jsstring) :
  same_connection slots (fst (processField slots st name value)).
Proof.
  unfold processField.
  repeat match goal with
         | |- context [if ?b then _ else _] => destruct b
         end; simpl; now repeat split.
Qed.

Lemma dispatchMessage_same (slots : Slots) (st : ParsingState) :
  same_connection slots (fst (fst (dispatchMessage slots st))).
Proof.
  unfold dispatchMessage.
  destruct (st_lastEventId st); destruct (JS.eqb (st_data st) []);
    simpl; now repeat split.
Qed.

Lemma parseLine_same (slots : Slots) (st : ParsingState) (line : jsstring) :
  same_connection slots (fst (fst (parseLine slots st line))).
Proof.
  unfold parseLine. destruct (JS.eqb line []).
  - apply dispatchMessage_same.
  - destruct (indexOf line COLON) as [[|n]|].
    + apply same_connection_refl.
    + match goal with
      | |- context [processField ?a ?b ?c ?d] =>
          pose proof (processField_same a b c d) as H;
          destruct (processField a b c d)
      end. exact H.
    + pose proof (processField_same slots st line []) as H.
      destruct (processField slots st line []). exact H.
Qed.

Lemma parseLoop_same (fuel : nat) (buffer : jsstring) (slots : Slots)
      (st : ParsingState) :
  same_connection slots (fst (fst (parseLoop fuel buffer slots st))).
Proof.
  revert slots st; induction fuel as [|fuel IH]; intros slots st; simpl.
  - apply same_connection_refl.
  - destruct (LINE_exec buffer (st_pos st)) as [[line p]|].
    + pose proof (parseLine_same slots (set_pos st p) line) as H1.
      destruct (parseLine slots (set_pos st p) line) as [[s1 st1] evs1].
      pose proof (IH s1 st1) as H2.
      destruct (parseLoop fuel buffer s1 st1) as [[s2 st2] evs2].
      simpl in *. eapply same_connection_trans; eassumption.
    + apply same_connection_refl.
Qed.

Lemma parseStream_same (slots : Slots) (st : ParsingState)
      (buffer : jsstring) :
  same_connection slots (fst (fst (parseStream slots st buffer))).
Proof. apply parseLoop_same. Qed.

(** ** The loop never runs out of fuel *)

Lemma LINE_match_length (s l : jsstring) (n : nat) :
  LINE_match s = Some (l, n) -> 0 < n <= length s.
Proof.
  revert l n; induction s as [|c s IH]; simpl; intros l n H.
  - discriminate.
  - destruct (N.eqb c CR).
    + destruct s as [|c' s]; [|destruct (N.eqb c' LF)];
        injection H as <- <-; simpl; lia.
    + destruct (N.eqb c LF).
      * injection H as <- <-; lia.
      * destruct (LINE_match s) as [[l' n']|]; [|discriminate].
        injection H as <- <-. specialize (IH _ _ eq_refl). lia.
Qed.

Lemma LINE_exec_advances (buffer line : jsstring) (p p' : nat) :
  LINE_exec buffer p = Some (line, p') -> p < p' <= length buffer.
Proof.
  unfold LINE_exec. destruct (length buffer <? p) eqn:E; [discriminate|].
  apply Nat.ltb_ge in E. rewrite LINE_search_match.
  destruct (LINE_match (skipn p buffer)) as [[l n]|] eqn:M; [|discriminate].
  intros H; injection H as <- <-.
  apply LINE_match_length in M. rewrite length_skipn in M. lia.
Qed.

Lemma parseLine_pos (slots : Slots) (st : ParsingState) (line : jsstring) :
  st_pos (snd (fst (parseLine slots st line))) = st_pos st.
Proof.
  unfold parseLine, dispatchMessage, processField.
  repeat match goal with
         | |- context [if ?b then _ else _] => destruct b
         | |- context [match ?b with _ => _ end] => destruct b
         end; reflexivity.
Qed.

(** Any fuel above the number of unread units gives the same result: the
    loop ends because [exec] fails, not because the fuel is spent. *)
Lemma parseLoop_fuel (buffer : jsstring) (f1 f2 : nat) :
  forall (slots : Slots) (st : ParsingState),
    length buffer - st_pos st < f1 ->
    length buffer - st_pos st < f2 ->
    parseLoop f1 buffer slots st = parseLoop f2 buffer slots st.
Proof.
  revert f2; induction f1 as [|f1 IH]; intros f2 slots st H1 H2; [lia|].
  destruct f2 as [|f2]; [lia|]. simpl.
  destruct (LINE_exec buffer (st_pos st)) as [[line p]|] eqn:E; [|reflexivity].
  apply LINE_exec_advances in E.
  pose proof (parseLine_pos slots (set_pos st p) line) as Hp.
  destruct (parseLine slots (set_pos st p) line) as [[s1 st1] evs1].
  simpl in Hp.
  rewrite (IH f2 s1 st1) by (rewrite Hp; lia). reflexivity.
Qed.

Lemma parseStream_fuel (buffer : jsstring) (fuel : nat) (slots : Slots)
      (st : ParsingState) :
  length buffer - st_pos st < fuel ->
  parseStream slots st buffer = parseLoop fuel buffer slots st.
Proof.
  intros H. unfold parseStream. apply parseLoop_fuel; lia.
Qed.

(** ** Field lines *)

Lemma indexOf_app_colon (name rest : jsstring) :
  includes name COLON = false ->
  indexOf (name ++ COLON :: rest) COLON = Some (length name).
Proof.
  unfold includes.
  induction name as [|c name IH]; cbn [app indexOf length existsb]; intros H.
  - now rewrite N.eqb_refl.
  - apply orb_false_iff in H as [Hc Hn].
    rewrite N.eqb_sym, Hc. now rewrite (IH Hn).
Qed.

Lemma firstn_length_app {A} (l r : list A) : firstn (length l) (l ++ r) = l.
Proof.
  rewrite firstn_app, firstn_all, Nat.sub_diag. simpl. apply app_nil_r.
Qed.

Lemma skipn_length_app {A} (l r : list A) (k : nat) :
  skipn (length l + k) (l ++ r) = skipn k r.
Proof.
  rewrite skipn_app, skipn_all2 by lia.
  now replace (length l + k - length l) with k by lia.
Qed.

Lemma nth_error_length_app {A} (l r : list A) (k : nat) :
  nth_error (l ++ r) (length l + k) = nth_error r k.
Proof.
  rewrite nth_error_app2 by lia.
  now replace (length l + k - length l) with k by lia.
Qed.

Lemma indexOf_no_colon (name : jsstring) :
  includes name COLON = false -> indexOf name COLON = None.
Proof.
  unfold includes.
  induction name as [|c name IH]; cbn [indexOf existsb]; intros H.
  - reflexivity.
  - apply orb_false_iff in H as [Hc Hn].
    rewrite N.eqb_sym, Hc. now rewrite (IH Hn).
Qed.

Lemma wf_name_parts (name : jsstring) :
  wf_name name = true ->
  name <> [] /\ includes name COLON = false /\ no_terminator name = true.
Proof.
  unfold wf_name. intros H.
  apply andb_prop in H as [H Hn]. apply andb_prop in H as [He Hc].
  apply negb_true_iff in He, Hc. repeat split; try assumption.
  intros ->. discriminate.
Qed.

(** What [parseStream] does with a line of each kind. *)
Lemma parseLine_line (slots : Slots) (st : ParsingState) (l : Line) :
  wf_line l = true ->
  parseLine slots st (render_line l) =
  match field_of l with
  | Some f => (processField slots st (fst f) (snd f), [])
  | None => (slots, st, [])
  end.
Proof.
  destruct l as [text|name|name space value]; cbn [wf_line render_line field_of fst snd];
    intros H.
  - reflexivity.
  - apply wf_name_parts in H as (Hn & Hc & _).
    unfold parseLine. rewrite (indexOf_no_colon _ Hc).
    destruct name as [|c name]; [congruence|].
    change (JS.eqb (c :: name) []) with false. cbv iota.
    now destruct (processField slots st (c :: name) []).
  - apply andb_prop in H as [H Hs]. apply andb_prop in H as [H Hv].
    apply wf_name_parts in H as (Hn & Hc & _).
    unfold parseLine. rewrite (indexOf_app_colon _ _ Hc).
    destruct name as [|c name]; [congruence|].
    change (JS.eqb ((c :: name) ++ COLON ::
                    (if space then SPACE :: value else value)) [])
      with false.
    cbv iota. change (length (c :: name)) with (S (length name)).
    cbv iota. change (S (length name)) with (length (c :: name)).
    unfold unit_at_is, slice_to, slice_from.
    rewrite nth_error_length_app, firstn_length_app.
    cbn [nth_error].
    destruct space.
    + rewrite N.eqb_refl, skipn_length_app. cbn [skipn].
      now destruct (processField slots st (c :: name) value).
    + cbn [orb] in Hs. apply negb_true_iff in Hs. unfold unit_at_is in Hs.
      rewrite skipn_length_app. cbn [skipn].
      destruct value as [|v0 value]; cbn [nth_error] in Hs |- *;
        rewrite ?Hs; cbn [skipn];
        now match goal with
            | |- context [processField ?a ?b ?c ?d] =>
                destruct (processField a b c d)
            end.
Qed.

Lemma render_line_no_terminator (l : Line) :
  wf_line l = true -> no_terminator (render_line l) = true.
Proof.
  destruct l as [text|name|name space value]; cbn [wf_line render_line];
    intros H.
  - exact H.
  - now apply wf_name_parts in H.
  - apply andb_prop in H as [H _]. apply andb_prop in H as [H Hv].
    apply wf_name_parts in H as (_ & _ & Hn).
    unfold no_terminator in *. rewrite forallb_app, Hn.
    destruct space; cbn; exact Hv.
Qed.

Lemma render_line_not_empty (l : Line) :
  wf_line l = true -> JS.eqb (render_line l) [] = false.
Proof.
  destruct l as [text|name|name space value]; cbn [wf_line render_line];
    intros H.
  - reflexivity.
  - apply wf_name_parts in H as (Hn & _). now destruct name.
  - apply andb_prop in H as [H _]. apply andb_prop in H as [H _].
    apply wf_name_parts in H as (Hn & _). now destruct name.
Qed.

(** ** Terminators *)

Lemma LINE_match_terminated (line rest : jsstring) (t : Terminator) :
  no_terminator line = true ->
  (t = T_CR -> starts_with_LF rest = false) ->
  LINE_match (line ++ render_terminator t ++ rest) =
  Some (line, length line + length (render_terminator t)).
Proof.
  intros Hl Ht. induction line as [|c line IH].
  - destruct t; cbn [app render_terminator length LINE_match].
    + specialize (Ht eq_refl). unfold starts_with_LF, unit_at_is in Ht.
      rewrite N.eqb_refl.
      destruct rest as [|c' rest]; [reflexivity|].
      cbn in Ht. now rewrite Ht.
    + reflexivity.
    + reflexivity.
  - cbn [no_terminator forallb] in Hl. apply andb_prop in Hl as [Hc Hl].
    unfold is_terminator in Hc. apply negb_true_iff, orb_false_iff in Hc.
    destruct Hc as [Hc1 Hc2].
    cbn [app LINE_match length]. rewrite Hc1, Hc2.
    now rewrite (IH Hl).
Qed.

Lemma block_text_start (ls : list (Line * Terminator)) (blank : Terminator) :
  wf_block ls blank = true ->
  starts_with_LF (block_text ls blank) = true ->
  ls = [] /\ blank = T_LF.
Proof.
  destruct ls as [|[l t] ls]; cbn [block_text wf_block].
  - destruct blank; now intros.
  - intros H S. exfalso.
    apply andb_prop in H as [H _]. apply andb_prop in H as [H _].
    pose proof (render_line_no_terminator l H) as N.
    pose proof (render_line_not_empty l H) as E.
    destruct (render_line l) as [|c s]; [discriminate|].
    cbn in N, S. apply andb_prop in N as [N _].
    unfold is_terminator in N. apply negb_true_iff, orb_false_iff in N.
    destruct N as [_ N]. unfold starts_with_LF, unit_at_is in S. cbn in S.
    congruence.
Qed.

(** ** Position bookkeeping *)

Lemma processField_set_pos (slots : Slots) (st : ParsingState)
      (name value : jsstring) (p : nat) :
  processField slots (set_pos st p) name value =
  (fst (processField slots st name value),
   set_pos (snd (processField slots st name value)) p).
Proof.
  unfold processField.
  repeat match goal with
         | |- context [if ?b then _ else _] => destruct b
         end; reflexivity.
Qed.

Lemma process_fields_set_pos (fs : list Field) (slots : Slots)
      (st : ParsingState) (p : nat) :
  process_fields fs (slots, set_pos st p) =
  (fst (process_fields fs (slots, st)),
   set_pos (snd (process_fields fs (slots, st))) p).
Proof.
  revert slots st; induction fs as [|f fs IH]; intros slots st.
  - reflexivity.
  - unfold process_fields in *. simpl.
    rewrite processField_set_pos.
    destruct (processField slots st (fst f) (snd f)) as [s1 st1]. simpl.
    apply IH.
Qed.

Lemma set_pos_set_pos (st : ParsingState) (p q : nat) :
  set_pos (set_pos st p) q = set_pos st q.
Proof. reflexivity. Qed.

Lemma dispatchMessage_set_pos (slots : Slots) (st : ParsingState) (p : nat) :
  dispatchMessage slots (set_pos st p) =
  let '(s1, st1, evs) := dispatchMessage slots st in (s1, set_pos st1 p, evs).
Proof.
  unfold dispatchMessage. simpl.
  destruct (st_lastEventId st); destruct (JS.eqb (st_data st) []); reflexivity.
Qed.

(** ** A block is its fields, then a dispatch *)

Lemma parseLoop_blank (fuel : nat) (pre : jsstring) (slots : Slots)
      (st : ParsingState) (blank : Terminator) :
  st_pos st = length pre ->
  1 < fuel ->
  parseLoop fuel (pre ++ render_terminator blank) slots st =
  dispatchMessage slots
    (set_pos st (length (pre ++ render_terminator blank))).
Proof.
  intros Hpos Hfuel. destruct fuel as [|[|fuel]]; try lia.
  cbn [parseLoop]. rewrite Hpos, LINE_exec_at.
  pose proof (LINE_match_terminated [] [] blank eq_refl (fun _ => eq_refl))
    as M.
  cbn [app length] in M. rewrite app_nil_r in M. rewrite M.
  cbv iota beta. unfold parseLine at 1.
  change (JS.eqb [] []) with true. cbv iota.
  rewrite dispatchMessage_set_pos.
  destruct (dispatchMessage slots st) as [[s1 st1] evs] eqn:D.
  cbn [set_pos st_pos].
  replace (length pre + (0 + length (render_terminator blank)))
    with (length (pre ++ render_terminator blank))
    by (rewrite length_app; reflexivity).
  rewrite LINE_exec_end, app_nil_r, dispatchMessage_set_pos, D.
  reflexivity.
Qed.

Lemma parseLoop_block (ls : list (Line * Terminator)) (blank : Terminator) :
  forall (fuel : nat) (pre : jsstring) (slots : Slots) (st : ParsingState),
    wf_block ls blank = true ->
    st_pos st = length pre ->
    length (block_text ls blank) < fuel ->
    parseLoop fuel (pre ++ block_text ls blank) slots st =
    let '(s1, st1) := process_fields (fields_of ls) (slots, st) in
    dispatchMessage s1
      (set_pos st1 (length (pre ++ block_text ls blank))).
Proof.
  induction ls as [|[l t] ls IH]; intros fuel pre slots st Hwf Hpos Hfuel.
  - cbn [block_text fields_of] in *. unfold process_fields. cbn [fold_left].
    apply parseLoop_blank; [assumption|].
    destruct blank; cbn in Hfuel; lia.
  - cbn [wf_block] in Hwf. apply andb_prop in Hwf as [Hwf Hls].
    apply andb_prop in Hwf as [Hl Ht].
    cbn [block_text] in *.
    assert (E : pre ++ render_line l ++ render_terminator t ++
                block_text ls blank
                = (pre ++ render_line l ++ render_terminator t) ++
                  block_text ls blank)
      by now rewrite <- !app_assoc.
    rewrite !length_app in Hfuel.
    assert (0 < length (render_terminator t)) by (destruct t; cbn; lia).
    destruct fuel as [|fuel]; [lia|].
    cbn [parseLoop]. rewrite Hpos, LINE_exec_at.
    rewrite LINE_match_terminated.
    + cbv iota beta. rewrite parseLine_line by assumption.
      assert (P : length pre + (length (render_line l)
                                + length (render_terminator t))
                  = length (pre ++ render_line l ++ render_terminator t))
        by (rewrite !length_app; lia).
      rewrite E.
      destruct (field_of l) as [f|] eqn:F; cbn [fields_of]; rewrite F.
      * rewrite processField_set_pos.
        destruct (processField slots st (fst f) (snd f)) as [s1 st1] eqn:PF.
        cbn [fst snd]. rewrite IH; try assumption.
        -- rewrite process_fields_set_pos.
           unfold process_fields at 3. cbn [fold_left fst snd]. rewrite PF.
           fold (process_fields (fields_of ls) (s1, st1)).
           destruct (process_fields (fields_of ls) (s1, st1)) as [s2 st2].
           cbn [fst snd]. rewrite set_pos_set_pos.
           now destruct (dispatchMessage s2 _) as [[? ?] ?].
        -- lia.
      * rewrite IH; try assumption.
        -- rewrite process_fields_set_pos.
           destruct (process_fields (fields_of ls) (slots, st)) as [s2 st2].
           cbn [fst snd]. rewrite set_pos_set_pos.
           now destruct (dispatchMessage s2 _) as [[? ?] ?].
        -- lia.
    + now apply render_line_no_terminator.
    + intros ->.
      destruct (starts_with_LF (block_text ls blank)) eqn:S; [|reflexivity].
      apply block_text_start in S as [-> ->]; [|assumption].
      discriminate Ht.
Qed.

(** ** What the fields of a block leave in the state *)

Lemma last_cons {A} (x d : A) (l : list A) : last (x :: l) d = last l x.
Proof.
  revert x d; induction l as [|y l IH]; intros x d.
  - reflexivity.
  - change (last (x :: y :: l) d) with (last (y :: l) d).
    now rewrite !IH.
Qed.

Lemma process_fields_state (fs : list Field) :
  forall (slots : Slots) (st : ParsingState),
    let p := process_fields fs (slots, st) in
    st_data (snd p) = st_data st ++ data_lines (data_values fs) /\
    st_type (snd p) =
      last (List.map snd (filter (named (str "event")) fs)) (st_type st) /\
    st_lastEventId (snd p) = pending_id fs (st_lastEventId st) /\
    st_origin (snd p) = st_origin st /\
    lastEventId (fst p) = lastEventId slots.
Proof.
  induction fs as [|[name value] fs IH]; intros slots st.
  - cbn. rewrite app_nil_r. now repeat split.
  - unfold process_fields. cbn [fold_left fst snd].
    fold (process_fields fs (processField slots st name value)).
    unfold data_values, pending_id, named in *.
    cbn [filter fst snd].
    unfold processField.
    destruct (eqb_spec (toLowerCase name) (str "event")) as [E|_].
    { rewrite E. cbn [JS.eqb str List.map list_ascii_of_string N_of_ascii].
      change (JS.eqb (str "event") (str "data")) with false.
      change (JS.eqb (str "event") (str "id")) with false.
      cbn [andb List.map]. rewrite last_cons.
      destruct (IH slots (set_type st value)) as (H1 & H2 & H3 & H4 & H5).
      now repeat split. }
    destruct (eqb_spec (toLowerCase name) (str "data")) as [E|_].
    { rewrite E.
      change (JS.eqb (str "data") (str "id")) with false.
      cbn [andb List.map].
      destruct (IH slots (set_data st ((st_data st ++ value) ++ [LF])))
        as (H1 & H2 & H3 & H4 & H5).
      repeat split; try assumption.
      rewrite H1. unfold data_lines. cbn [st_data set_data List.map concat].
      now rewrite <- !app_assoc. }
    destruct (eqb_spec (toLowerCase name) (str "id")) as [E|_].
    { cbn [andb]. destruct (includes value NUL); cbn [negb List.map].
      - apply IH.
      - rewrite last_cons.
        destruct (IH slots (set_st_lastEventId st (Some value)))
          as (H1 & H2 & H3 & H4 & H5).
        now repeat split. }
    cbn [andb].
    destruct (JS.eqb (toLowerCase name) (str "retry")); [|apply IH].
    destruct (DIGITS_test value); [|apply IH].
    destruct (IH (set_reconnectionTime slots
                    (inject_Z (Z.of_N (parseInt value)))) st)
      as (H1 & H2 & H3 & H4 & H5).
    now repeat split.
Qed.

Lemma removelast_data_lines (v : jsstring) (vs : list jsstring) :
  removelast (data_lines (v :: vs)) = join_LF (v :: vs).
Proof.
  revert v; induction vs as [|v' vs IH]; intros v.
  - unfold data_lines. cbn. rewrite app_nil_r. apply removelast_last.
  - change (data_lines (v :: v' :: vs))
      with ((v ++ [LF]) ++ data_lines (v' :: vs)).
    rewrite removelast_app.
    + rewrite IH, <- app_assoc. reflexivity.
    + unfold data_lines. cbn. destruct v'; discriminate.
Qed.

Lemma data_lines_empty (vs : list jsstring) :
  JS.eqb (data_lines vs) [] = match vs with [] => true | _ => false end.
Proof.
  destruct vs as [|v vs]; [reflexivity|].
  unfold data_lines. cbn. destruct v; reflexivity.
Qed.

(** C4. An event block (lines of any kind, each with any terminator,
    closed by a blank line) read from a state with nothing pending: when
    the block has data fields, exactly one event is queued, its data the
    values of the data fields joined by a newline, its type the last event
    value or "message" when that is empty; when it has none, no event is
    queued.  In both cases the pending id is committed to the
    [lastEventId] slot. *)
Theorem event_block_dispatch (slots : Slots) (st : ParsingState)
        (pre : jsstring) (ls : list (Line * Terminator))
        (blank : Terminator) :
  wf_block ls blank = true ->
  st_data st = [] -> st_type st = [] -> st_pos st = length pre ->
  let fs := fields_of ls in
  let '(slots', st', evs) :=
    parseStream slots st (pre ++ block_text ls blank) in
  let id' := match pending_id fs (st_lastEventId st) with
             | Some i => i
             | None => lastEventId slots
             end in
  lastEventId slots' = id' /\
  st_data st' = [] /\ st_type st' = [] /\
  evs = match data_values fs with
        | [] => []
        | vs =>
            [mkMessageEvent
               (if JS.eqb (pending_type fs) [] then str "message"
                else pending_type fs)
               (join_LF vs) (st_origin st) id']
        end.
Proof.
  intros Hwf Hd Ht Hp fs.
  rewrite parseStream_fuel with (fuel := S (length (block_text ls blank)))
    by (rewrite length_app, Hp; lia).
  rewrite parseLoop_block by (assumption || lia).
  fold fs.
  pose proof (process_fields_state fs slots st) as H. cbv zeta in H.
  destruct (process_fields fs (slots, st)) as [s1 st1].
  cbn [fst snd] in H. destruct H as (H1 & H2 & H3 & H4 & H5).
  rewrite Hd in H1. cbn [app] in H1. rewrite Ht in H2.
  fold (pending_type fs) in H2.
  unfold dispatchMessage.
  cbn [st_data st_type st_lastEventId st_origin set_pos set_data set_type].
  rewrite H1, H2, H3, H4, data_lines_empty.
  destruct (data_values fs) as [|v vs] eqn:V.
  - destruct (pending_id fs (st_lastEventId st));
      cbn [lastEventId set_lastEventId]; rewrite ?H5; now repeat split.
  - unfold slice_drop_last. rewrite removelast_data_lines.
    destruct (pending_id fs (st_lastEventId st));
      cbn [lastEventId set_lastEventId]; rewrite ?H5; now repeat split.
Qed.

Lemma event_block_dispatch_witness :
  wf_block example_block T_CRLF = true /\
  st_data state0 = [] /\ st_type state0 = [] /\
  st_pos state0 = length (@nil jschar) /\
  snd (parseStream example_slots state0
         ([] ++ block_text example_block T_CRLF)) =
  [mkMessageEvent (str "hello")
                  (str "one" ++ [LF] ++ [LF] ++ str " two") []
                  (str "7")].
Proof.
  repeat (split; [reflexivity|]).
  pose proof (event_block_dispatch example_slots state0 [] example_block
                T_CRLF eq_refl eq_refl eq_refl eq_refl) as H.
  cbv zeta in H.
  destruct (parseStream example_slots state0
              ([] ++ block_text example_block T_CRLF))
    as [[s1 st1] evs].
  destruct H as (_ & _ & _ & H). exact H.
Defined.

(** ** The retry field *)

Lemma lower_unit_cases (c : jschar) (x : jschar) :
  lower_unit c = x -> c = x \/ (c + 32)%N = x.
Proof.
  unfold lower_unit. destruct ((65 <=? c)%N && (c <=? 90)%N); auto.
Qed.

(** C10. A [retry] field with an empty value changes nothing: the digit
    test asks for at least one digit, although all (zero) units of the
    empty string are digits.  So the field [retry] with an empty value
    and the lines "retry:" and "retry: ", in any letter case, leave the
    slots (with the reconnection time) and the parsing state as they
    were. *)
Theorem retry_empty_value_ignored (slots : Slots) (st : ParsingState)
        (name : jsstring) :
  toLowerCase name = str "retry" ->
  forallb is_digit [] = true /\
  DIGITS_test [] = false /\
  processField slots st name [] = (slots, st) /\
  parseLine slots st (name ++ [COLON]) = (slots, st, []) /\
  parseLine slots st (name ++ [COLON; SPACE]) = (slots, st, []).
Proof.
  intros H.
  assert (P : processField slots st name [] = (slots, st)).
  { unfold processField. rewrite H. reflexivity. }
  assert (C : includes name COLON = false).
  { destruct name as [|a [|b [|c [|d [|e [|]]]]]]; try discriminate H.
    cbn [toLowerCase List.map str list_ascii_of_string] in H.
    injection H as Ha Hb Hc Hd He.
    apply lower_unit_cases in Ha, Hb, Hc, Hd, He.
    unfold includes. cbn [existsb].
    destruct Ha as [Ha|Ha], Hb as [Hb|Hb], Hc as [Hc|Hc], Hd as [Hd|Hd],
             He as [He|He];
      repeat match goal with
             | E : (?x + 32)%N = _ |- _ =>
                 assert (x = N_of_ascii "R" \/ x = N_of_ascii "E" \/
                         x = N_of_ascii "T" \/ x = N_of_ascii "Y")
                   as [->|[->|[->| ->]]] by (cbn in E |- *; lia); clear E
             | E : ?x = _ |- _ => is_var x; subst x
             end; reflexivity. }
  assert (N : name <> []) by (intros ->; discriminate H).
  repeat split; try assumption.
  - unfold parseLine. rewrite (indexOf_app_colon _ _ C).
    destruct name as [|c name]; [congruence|].
    change (JS.eqb ((c :: name) ++ [COLON]) []) with false. cbv iota.
    change (length (c :: name)) with (S (length name)). cbv iota.
    change (S (length name)) with (length (c :: name)).
    unfold unit_at_is, slice_to, slice_from.
    rewrite nth_error_length_app, firstn_length_app. cbn [nth_error].
    rewrite skipn_length_app. cbn [skipn]. now rewrite P.
  - unfold parseLine. rewrite (indexOf_app_colon _ _ C).
    destruct name as [|c name]; [congruence|].
    change (JS.eqb ((c :: name) ++ [COLON; SPACE]) []) with false. cbv iota.
    change (length (c :: name)) with (S (length name)). cbv iota.
    change (S (length name)) with (length (c :: name)).
    unfold unit_at_is, slice_to, slice_from.
    rewrite nth_error_length_app, firstn_length_app. cbn [nth_error].
    rewrite N.eqb_refl, skipn_length_app. cbn [skipn]. now rewrite P.
Qed.

Lemma retry_empty_value_ignored_witness :
  toLowerCase (str "Retry") = str "retry" /\
  parseLine example_slots state0 (str "Retry" ++ [COLON; SPACE]) =
  (example_slots, state0, []).
Proof.
  split; [reflexivity|].
  apply (retry_empty_value_ignored example_slots state0 (str "Retry")
           eq_refl).
Defined.

(** ** Chunk boundaries *)

Lemma ends_with_CR_cons (c : jschar) (s : jsstring) :
  s <> [] -> ends_with_CR (c :: s) = ends_with_CR s.
Proof.
  intros H. unfold ends_with_CR. cbn [rev].
  destruct (rev s) as [|x r] eqn:E.
  - apply (f_equal (@rev jschar)) in E. rewrite rev_involutive in E.
    now destruct H.
  - reflexivity.
Qed.

(** A match in a buffer is the same match in a longer buffer, unless the
    buffer ends with the CR that closed the line and goes on with an LF. *)
Lemma LINE_match_app (s d l : jsstring) (n : nat) :
  LINE_match s = Some (l, n) ->
  ends_with_CR s && starts_with_LF d = false ->
  LINE_match (s ++ d) = Some (l, n).
Proof.
  revert l n; induction s as [|c s IH]; intros l n M S; [discriminate|].
  cbn [LINE_match app] in *.
  destruct (N.eqb c CR) eqn:Ec.
  - destruct s as [|c' s]; [|exact M].
    cbn [app]. unfold ends_with_CR in S. cbn [rev app] in S.
    rewrite Ec in S. cbn [andb] in S.
    unfold starts_with_LF, unit_at_is in S.
    destruct d as [|c' d]; [exact M|]. cbn in S. now rewrite S.
  - destruct (N.eqb c LF); [exact M|].
    destruct (LINE_match s) as [[l' n']|] eqn:Ms; [|discriminate].
    assert (Hs : s <> []) by (intros ->; discriminate).
    rewrite ends_with_CR_cons in S by exact Hs.
    now rewrite (IH _ _ eq_refl S).
Qed.

Lemma ends_with_CR_skipn (p : nat) (s : jsstring) :
  p < length s -> ends_with_CR (skipn p s) = ends_with_CR s.
Proof.
  revert p; induction s as [|c s IH]; intros p H; [cbn in H; lia|].
  destruct p as [|p]; [reflexivity|].
  cbn [skipn]. cbn [length] in H.
  rewrite IH by lia. symmetry. apply ends_with_CR_cons.
  intros ->. cbn in H. lia.
Qed.

Lemma LINE_exec_app (b d l : jsstring) (p p' : nat) :
  LINE_exec b p = Some (l, p') ->
  ends_with_CR b && starts_with_LF d = false ->
  LINE_exec (b ++ d) p = Some (l, p').
Proof.
  intros E S. pose proof (LINE_exec_advances _ _ _ _ E) as A.
  unfold LINE_exec in *.
  destruct (length b <? p) eqn:L; [discriminate|].
  apply Nat.ltb_ge in L.
  replace (length (b ++ d) <? p) with false
    by (symmetry; apply Nat.ltb_ge; rewrite length_app; lia).
  rewrite LINE_search_match in *.
  destruct (LINE_match (skipn p b)) as [[l0 n]|] eqn:M; [|discriminate].
  rewrite skipn_app. replace (p - length b) with 0 by lia. cbn [skipn].
  rewrite (LINE_match_app _ d _ _ M); [exact E|].
  rewrite ends_with_CR_skipn by lia. exact S.
Qed.

(** Parsing a prefix first and the whole buffer next gives what parsing
    the whole buffer at once gives, when the cut is safe. *)
Lemma parseLoop_prefix (b d : jsstring) :
  ends_with_CR b && starts_with_LF d = false ->
  forall (f F1 F2 : nat) (slots : Slots) (st : ParsingState),
    length b - st_pos st < f ->
    length (b ++ d) - st_pos st < F1 ->
    length (b ++ d) - st_pos st < F2 ->
    parseLoop F1 (b ++ d) slots st =
    let '(s1, st1, e1) := parseLoop f b slots st in
    let '(s2, st2, e2) := parseLoop F2 (b ++ d) s1 st1 in
    (s2, st2, e1 ++ e2).
Proof.
  intros S. induction f as [|f IH]; intros F1 F2 slots st H H1 H2; [lia|].
  cbn [parseLoop].
  destruct (LINE_exec b (st_pos st)) as [[l p']|] eqn:E.
  - pose proof (LINE_exec_advances _ _ _ _ E) as A.
    destruct F1 as [|F1]; [lia|]. cbn [parseLoop].
    rewrite (LINE_exec_app _ d _ _ _ E S).
    pose proof (parseLine_pos slots (set_pos st p') l) as P.
    destruct (parseLine slots (set_pos st p') l) as [[s' st'] evs].
    cbn [fst snd set_pos st_pos] in P.
    rewrite (IH F1 F2 s' st') by (rewrite ?length_app in *; lia).
    destruct (parseLoop f b s' st') as [[s1 st1] e1].
    destruct (parseLoop F2 (b ++ d) s1 st1) as [[s2 st2] e2].
    now rewrite app_assoc.
  - rewrite (parseLoop_fuel (b ++ d) F1 F2 slots st) by assumption.
    now destruct (parseLoop F2 (b ++ d) slots st) as [[s2 st2] e2].
Qed.

Lemma parseLoop_pos_mono (b : jsstring) (f : nat) (slots : Slots)
      (st : ParsingState) :
  st_pos st <= st_pos (snd (fst (parseLoop f b slots st))).
Proof.
  revert slots st; induction f as [|f IH]; intros slots st; cbn [parseLoop].
  - cbn. lia.
  - destruct (LINE_exec b (st_pos st)) as [[l p']|] eqn:E; [|cbn; lia].
    apply LINE_exec_advances in E.
    pose proof (parseLine_pos slots (set_pos st p') l) as P.
    destruct (parseLine slots (set_pos st p') l) as [[s' st'] evs].
    cbn [fst snd set_pos st_pos] in P.
    specialize (IH s' st').
    destruct (parseLoop f b s' st') as [[s1 st1] e1]. cbn in *. lia.
Qed.

Lemma parseStream_prefix (b d : jsstring) (slots : Slots)
      (st : ParsingState) :
  ends_with_CR b && starts_with_LF d = false ->
  parseStream slots st (b ++ d) =
  let '(s1, st1, e1) := parseStream slots st b in
  let '(s2, st2, e2) := parseStream s1 st1 (b ++ d) in
  (s2, st2, e1 ++ e2).
Proof.
  intros Hcut. unfold parseStream at 1 2.
  rewrite (parseLoop_prefix b d Hcut (S (length b)) (S (length (b ++ d)))
             (S (length (b ++ d))) slots st) by lia.
  pose proof (parseLoop_pos_mono b (S (length b)) slots st) as M.
  destruct (parseLoop (S (length b)) b slots st) as [[s1 st1] e1].
  cbn [fst snd] in M.
  rewrite <- (parseStream_fuel (b ++ d) (S (length (b ++ d))) s1 st1) by lia.
  reflexivity.
Qed.

(** After a buffer is parsed, parsing it again finds nothing. *)
Lemma parseLoop_done (b : jsstring) (f : nat) :
  forall (slots : Slots) (st : ParsingState),
    length b - st_pos st < f ->
    LINE_exec b (st_pos (snd (fst (parseLoop f b slots st)))) = None.
Proof.
  induction f as [|f IH]; intros slots st H; [lia|].
  cbn [parseLoop].
  destruct (LINE_exec b (st_pos st)) as [[l p']|] eqn:E; [|exact E].
  apply LINE_exec_advances in E.
  pose proof (parseLine_pos slots (set_pos st p') l) as P.
  destruct (parseLine slots (set_pos st p') l) as [[s' st'] evs].
  cbn [fst snd set_pos st_pos] in P.
  specialize (IH s' st').
  destruct (parseLoop f b s' st') as [[s1 st1] e1]. cbn [fst snd] in *.
  apply IH. lia.
Qed.

Lemma parseStream_again (b : jsstring) (slots : Slots) (st : ParsingState) :
  let '(s1, st1, _) := parseStream slots st b in
  parseStream s1 st1 b = (s1, st1, []).
Proof.
  pose proof (parseLoop_done b (S (length b)) slots st) as D.
  unfold parseStream at 1.
  destruct (parseLoop (S (length b)) b slots st) as [[s1 st1] e1].
  cbn [fst snd] in D. unfold parseStream. cbn [parseLoop].
  rewrite D by lia. reflexivity.
Qed.

Lemma safe_chunks_concat (cs : list jsstring) (acc : jsstring) :
  safe_chunks acc cs = true ->
  ends_with_CR acc && starts_with_LF (concat cs) = false.
Proof.
  revert acc; induction cs as [|c cs IH]; intros acc H.
  - cbn. apply andb_false_r.
  - cbn [safe_chunks concat] in *. apply andb_prop in H as [H1 H2].
    apply negb_true_iff in H1.
    destruct c as [|x c]; [|exact H1].
    cbn [app]. rewrite app_nil_r in H2. now apply IH.
Qed.

(** Chunking invariance where it holds: for chunks that do not separate a
    CR from the LF after it, the successive cumulative feeds queue the
    events of the whole text fed at once and end in the same state. *)
Lemma feed_all_safe (cs : list jsstring) :
  forall (acc : jsstring) (slots : Slots) (st : ParsingState)
         (evs0 : list MessageEvent),
    parseStream slots st acc = (slots, st, []) ->
    safe_chunks acc cs = true ->
    fold_left feed (cumulative acc cs) (slots, st, evs0) =
    let '(s', st', evs) := parseStream slots st (acc ++ concat cs) in
    (s', st', evs0 ++ evs).
Proof.
  induction cs as [|c cs IH]; intros acc slots st evs0 A S.
  - cbn [cumulative fold_left concat]. rewrite app_nil_r, A.
    now rewrite app_nil_r.
  - cbn [cumulative fold_left concat safe_chunks] in *.
    apply andb_prop in S as [S1 S2].
    rewrite app_assoc.
    rewrite (parseStream_prefix (acc ++ c) (concat cs) slots st)
      by now apply safe_chunks_concat.
    unfold feed at 2.
    pose proof (parseStream_again (acc ++ c) slots st) as G.
    destruct (parseStream slots st (acc ++ c)) as [[s1 st1] e1].
    rewrite (IH (acc ++ c) s1 st1 (evs0 ++ e1) G S2).
    destruct (parseStream s1 st1 ((acc ++ c) ++ concat cs))
      as [[s2 st2] e2].
    now rewrite app_assoc.
Qed.

Lemma chunking_invariant_when_safe (slots : Slots) (cs : list jsstring) :
  safe_chunks [] cs = true ->
  feed_all slots state0 (cumulative [] cs) =
  parseStream slots state0 (concat cs).
Proof.
  intros S. unfold feed_all.
  rewrite (feed_all_safe cs [] slots state0 [] eq_refl S).
  cbn [app]. now destruct (parseStream slots state0 (concat cs)) as [[? ?] ?].
Qed.

(** C1. The parser at the stream "data: x\r\ndata: y\n\n".  Fed at once it
    reads two data lines and one blank line: one event with data "x\ny".
    Fed first up to the CR and then whole, the CR closes the first line at
    the end of the first buffer and the LF that follows is read as a line
    of its own, blank: two events, "x" and "y".  The parser is not
    chunking-invariant at a CRLF that straddles two chunks; in general,
    wherever the scan resumes on an LF it reads a blank line. *)
Theorem crlf_across_chunks (slots : Slots) :
  let message d := mkMessageEvent (str "message") d [] (lastEventId slots) in
  snd (feed_all slots state0 [crlf_stream]) =
    [message (str "x" ++ [LF] ++ str "y")] /\
  snd (feed_all slots state0 [crlf_stream_cut; crlf_stream]) =
    [message (str "x"); message (str "y")] /\
  firstn (length crlf_stream_cut) crlf_stream = crlf_stream_cut /\
  LINE_exec crlf_stream_cut 0 = Some (str "data: x", length crlf_stream_cut) /\
  forall before rest : jsstring,
    LINE_exec (before ++ LF :: rest) (length before) =
    Some ([], length before + 1).
Proof.
  repeat split. intros before rest. now rewrite LINE_exec_at.
Qed.

(** ** The byte-order mark *)


(** ** The reconnection delay *)





(** The delays of three consecutive network failures, on the event loop:
    100, 150 and 225 ms for a base interval of 100 ms and the rate 1.5. *)
Example three_losses_delays :
  let w0 := init 100%Q (3 # 2)%Q 65536%Q true example_url false in
  List.map Qred (timers (run w0 (firstn 1 three_losses))) = [100%Q] /\
  List.map Qred (timers (run w0 (firstn 5 three_losses))) = [150%Q] /\
  List.map Qred (timers (run w0 three_losses)) = [225%Q].
Proof. repeat split. Qed.

(** * Properties of the connection manager *)

(** ** Handlers that the consumer cannot see *)

Lemma same_phase_refl (w : World) : same_phase w w.
Proof. now split. Qed.

Lemma same_phase_trans (a b c : World) :
  same_phase a b -> same_phase b c -> same_phase a c.
Proof. unfold same_phase. intros [? ?] [? ?]. split; congruence. Qed.

Lemma settle_slots (w : World) (r : nat) : slots (settle w r) = slots w.
Proof. unfold settle. now destruct (nth_error (requests w) r). Qed.

Lemma settle_phase (w : World) (r : nat) : same_phase w (settle w r).
Proof. unfold settle. destruct (nth_error (requests w) r); now split. Qed.

Lemma createConnection_phase (w : World) : same_phase w (createConnection w).
Proof. unfold createConnection. destruct (onLine w); now split. Qed.

Lemma onabort_phase (w : World) : same_phase w (onabort w).
Proof.
  unfold onabort.
  destruct (ReadyState_eqb (readyState (slots w)) CLOSED); cbn [negb].
  - apply same_phase_refl.
  - eapply same_phase_trans; [|apply createConnection_phase]. now split.
Qed.

Lemma request_abort_phase (w : World) (r : nat) :
  same_phase w (request_abort w r).
Proof.
  unfold request_abort. destruct (nth_error (requests w) r) as [q|].
  - destruct (inflight q); [|apply same_phase_refl].
    eapply same_phase_trans; [apply settle_phase|apply onabort_phase].
  - apply same_phase_refl.
Qed.

Lemma reestablishConnection_phase (w : World) :
  same_phase w (reestablishConnection w).
Proof. now split. Qed.

Lemma progress_chunk_phase (w : World) (r status : nat)
      (ct : option jsstring) (u : option URL) (text : jsstring) :
  same_phase w (fst (progress_chunk w r status ct u text)).
Proof.
  unfold progress_chunk.
  destruct (nth_error (requests w) r) as [q|]; [|apply same_phase_refl].
  destruct (ReadyState_eqb (readyState (slots w)) CLOSED || (status =? 0));
    [apply same_phase_refl|].
  destruct (first q); [destruct (valid_response status ct)|];
    cbv beta iota zeta; cbn [negb];
    try match goal with
        | |- context [parseStream ?s ?st ?b] =>
            pose proof (parseStream_same s st b) as H;
            destruct (parseStream s st b) as [[s1 st1] evs];
            destruct H as (_ & _ & _ & H & _)
        end; now split.
Qed.

Lemma onprogress_phase (w : World) (r status : nat)
      (ct : option jsstring) (u : option URL) (text : jsstring) :
  same_phase w (onprogress w r status ct u text).
Proof.
  unfold onprogress.
  pose proof (progress_chunk_phase w r status ct u text) as H.
  destruct (progress_chunk w r status ct u text) as [w1 parsed].
  cbn [fst] in H.
  destruct (parsed && buffer_exceeded w1 text); [|exact H].
  eapply same_phase_trans; [exact H|apply request_abort_phase].
Qed.

Lemma onload_phase (w : World) (r status : nat) :
  same_phase w (onload w r status).
Proof.
  unfold onload. destruct (nth_error (requests w) r) as [q|];
    [|apply same_phase_refl].
  destruct (ReadyState_eqb (readyState (slots w)) CLOSED || (status =? 0));
    [apply same_phase_refl|].
  destruct (status =? 200); destruct ((status =? 204) && first q);
    now split.
Qed.

Lemma onerror_phase (w : World) : same_phase w (onerror w).
Proof.
  unfold onerror.
  destruct (ReadyState_eqb (readyState (slots w)) CLOSED); now split.
Qed.

Lemma online_listeners_phase (n : nat) (w : World) :
  same_phase w (Nat.iter n online_listener w).
Proof.
  induction n as [|n IH].
  - apply same_phase_refl.
  - change (Nat.iter (S n) online_listener w)
      with (online_listener (Nat.iter n online_listener w)).
    eapply same_phase_trans; [exact IH|].
    unfold online_listener.
    destruct (negb _); [apply createConnection_phase|apply same_phase_refl].
Qed.

(** Every step but [close()] and a queued closure is invisible. *)
Lemma step_phase (w : World) (e : Event) :
  e <> EClose -> e <> ERunTask -> same_phase w (step w e).
Proof.
  intros H1 H2. destruct e; try congruence; cbn [step].
  - apply onprogress_phase.
  - eapply same_phase_trans; [apply settle_phase|apply onload_phase].
  - destruct (nth_error (requests w) r); [|apply same_phase_refl].
    eapply same_phase_trans; [apply settle_phase|apply onerror_phase].
  - destruct (nth_error (requests w) r); [|apply same_phase_refl].
    eapply same_phase_trans; [apply settle_phase|apply onabort_phase].
  - destruct (nth_error (timers w) i); now split.
  - now split.
  - eapply same_phase_trans; [|apply online_listeners_phase]. now split.
  - unfold setReconnectionTimeIncreasingRate.
    destruct (Qle_bool value 1); now split.
  - unfold setMaxBufferSize. destruct (Qle_bool value 0); now split.
Qed.

Lemma close_closed (w : World) :
  readyState (slots (close w)) = CLOSED /\ delivered (close w) = delivered w.
Proof.
  unfold close. destruct (request (slots w)) as [r|]; [|now split].
  match goal with
  | |- context [request_abort ?w0 r] =>
      destruct (request_abort_phase w0 r) as [-> ->]
  end. now split.
Qed.

(** A closure that runs when [readyState] is CLOSED does nothing. *)
Lemma run_task_closed (w : World) (t : Task) :
  readyState (slots w) = CLOSED -> run_task w t = w.
Proof.
  intros H. unfold run_task. rewrite H. now destruct t.
Qed.

Lemma run_task_transition (w : World) (t : Task) :
  allowed_transition (readyState (slots w))
                     (readyState (slots (run_task w t))).
Proof.
  unfold allowed_transition, run_task.
  destruct t; destruct (readyState (slots w)) eqn:E;
    cbn [ReadyState_eqb negb];
    first
      [ rewrite (proj1 (createConnection_phase w)), E; tauto
      | unfold dispatchEvent; cbn [slots set_delivered];
        rewrite (proj1 (close_closed w)); tauto
      | cbn; rewrite ?E; tauto ].
Qed.

(** ** Once CLOSED *)

Lemma update_request_length (rs : list Request) (r : nat) (q : Request) :
  length (update_request rs r q) = length rs.
Proof.
  revert r; induction rs as [|x rs IH]; intros [|r]; simpl; auto.
Qed.

Lemma nth_error_update_request (rs : list Request) (r r' : nat)
      (q : Request) :
  nth_error (update_request rs r q) r' =
  if r' =? r then match nth_error rs r with
                  | Some _ => Some q
                  | None => None
                  end
  else nth_error rs r'.
Proof.
  revert r r'; induction rs as [|x rs IH]; intros [|r] [|r']; cbn;
    try reflexivity.
  - now destruct (r' =? r).
  - apply IH.
Qed.

Lemma nth_error_update_same (rs : list Request) (r : nat)
      (q0 q' : Request) :
  nth_error rs r = Some q0 ->
  nth_error (update_request rs r q') r = Some q'.
Proof.
  intros H. now rewrite nth_error_update_request, Nat.eqb_refl, H.
Qed.

Lemma settle_requests_length (w : World) (r : nat) :
  length (requests (settle w r)) = length (requests w).
Proof.
  unfold settle. destruct (nth_error (requests w) r); [|reflexivity].
  apply update_request_length.
Qed.

Lemma onabort_closed (w : World) :
  readyState (slots w) = CLOSED -> onabort w = w.
Proof. intros H. unfold onabort. now rewrite H. Qed.

Lemma request_abort_closed_length (w : World) (r : nat) :
  readyState (slots w) = CLOSED ->
  length (requests (request_abort w r)) = length (requests w).
Proof.
  intros H. unfold request_abort.
  destruct (nth_error (requests w) r) as [q|]; [|reflexivity].
  destruct (inflight q); [|reflexivity].
  rewrite onabort_closed by now rewrite settle_slots.
  apply settle_requests_length.
Qed.

Lemma online_listeners_closed (n : nat) (w : World) :
  readyState (slots w) = CLOSED -> Nat.iter n online_listener w = w.
Proof.
  intros H. induction n as [|n IH]; [reflexivity|].
  change (Nat.iter (S n) online_listener w)
    with (online_listener (Nat.iter n online_listener w)).
  rewrite IH. unfold online_listener. now rewrite H.
Qed.

(** In the CLOSED state no step delivers a notification, starts a request
    or leaves the state. *)
Lemma closed_step (w : World) (e : Event) :
  readyState (slots w) = CLOSED ->
  readyState (slots (step w e)) = CLOSED /\
  delivered (step w e) = delivered w /\
  length (requests (step w e)) = length (requests w).
Proof.
  intros H. destruct e; cbn [step].
  - destruct (close_closed w) as [-> ->]. repeat split.
    unfold close. destruct (request (slots w)); [|reflexivity].
    now rewrite request_abort_closed_length.
  - unfold onprogress, progress_chunk.
    destruct (nth_error (requests w) r); [rewrite H|]; now repeat split.
  - unfold onload. destruct (nth_error (requests (settle w r)) r).
    + rewrite settle_slots, H. cbn [ReadyState_eqb orb].
      rewrite settle_slots, settle_requests_length.
      destruct (settle_phase w r) as [_ ->]. now repeat split.
    + rewrite settle_slots, settle_requests_length.
      destruct (settle_phase w r) as [_ ->]. now repeat split.
  - destruct (nth_error (requests w) r); [|now repeat split].
    unfold onerror. rewrite settle_slots, H. cbn [ReadyState_eqb negb].
    rewrite settle_slots, settle_requests_length.
    destruct (settle_phase w r) as [_ ->]. now repeat split.
  - destruct (nth_error (requests w) r); [|now repeat split].
    rewrite onabort_closed by now rewrite settle_slots.
    rewrite settle_slots, settle_requests_length.
    destruct (settle_phase w r) as [_ ->]. now repeat split.
  - destruct (tasks w) as [|t ts]; [now repeat split|].
    rewrite run_task_closed by exact H. now repeat split.
  - destruct (nth_error (timers w) i); now repeat split.
  - now repeat split.
  - rewrite online_listeners_closed by exact H. now repeat split.
  - unfold setReconnectionTimeIncreasingRate.
    destruct (Qle_bool value 1); now repeat split.
  - unfold setMaxBufferSize. destruct (Qle_bool value 0); now repeat split.
Qed.

Lemma closed_run (es : list Event) (w : World) :
  readyState (slots w) = CLOSED ->
  readyState (slots (run w es)) = CLOSED /\
  delivered (run w es) = delivered w /\
  length (requests (run w es)) = length (requests w).
Proof.
  revert w; induction es as [|e es IH]; intros w H.
  - now repeat split.
  - destruct (closed_step w e H) as (H1 & H2 & H3).
    destruct (IH (step w e) H1) as (I1 & I2 & I3).
    unfold run in *. cbn [fold_left]. repeat split; congruence.
Qed.

(** C6. [readyState] moves toward CLOSED only: whatever the state (so in
    every reachable one) and whatever the step, it stays as it is or goes
    CONNECTING to OPEN, OPEN to CONNECTING, CONNECTING to CLOSED or OPEN
    to CLOSED; and from CLOSED no sequence of steps leads away. *)
Theorem readyState_monotonic :
  (forall (w : World) (e : Event),
      allowed_transition (readyState (slots w))
                         (readyState (slots (step w e)))) /\
  (forall (w : World) (es : list Event),
      readyState (slots w) = CLOSED ->
      readyState (slots (run w es)) = CLOSED).
Proof.
  split.
  - intros w e.
    destruct e;
      try (left; symmetry; apply step_phase; discriminate).
    + cbn [step]. destruct (close_closed w) as [-> _].
      unfold allowed_transition.
      destruct (readyState (slots w)); tauto.
    + cbn [step]. destruct (tasks w) as [|t ts]; [now left|].
      apply (run_task_transition (set_tasks w ts) t).
  - intros w es H. now apply closed_run.
Qed.

Lemma readyState_monotonic_witness :
  readyState (slots (close example_world)) = CLOSED /\
  readyState
    (slots (run (close example_world)
              [EProgress 0 200 example_contentType None plain_stream;
               ERunTask; EError 0; ERunTask; ETimer 0; EOnline]))
  = CLOSED.
Proof.
  split; [reflexivity|].
  apply (proj2 readyState_monotonic (close example_world)). reflexivity.
Defined.

(** Each of the four transitions is taken by some run. *)
Example transitions_taken :
  let opened :=
    run example_world
      [EProgress 0 200 example_contentType None plain_stream; ERunTask] in
  readyState (slots example_world) = CONNECTING /\
  readyState (slots opened) = OPEN /\
  readyState (slots (run opened [ELoad 0 200; ERunTask; ERunTask]))
    = CONNECTING /\
  readyState (slots (step example_world EClose)) = CLOSED /\
  readyState (slots (step opened EClose)) = CLOSED.
Proof. repeat split. Qed.

(** C7. After [close()] nothing is delivered any more, whatever happens
    next and whatever was queued before the call: a queued closure that
    runs after [close()] leaves the whole state as it is. *)
Theorem no_notification_after_close :
  (forall (w : World) (es : list Event),
      delivered (run (step w EClose) es) = delivered w) /\
  (forall (w : World) (t : Task), run_task (close w) t = close w).
Proof.
  split.
  - intros w es. cbn [step]. destruct (close_closed w) as [H1 H2].
    destruct (closed_run es (close w) H1) as (_ & -> & _). exact H2.
  - intros w t. apply run_task_closed. apply close_closed.
Qed.

Example close_drops_scheduled_message :
  let w := run example_world
             [EProgress 0 200 example_contentType None plain_stream] in
  length (tasks w) = 2 /\
  delivered (run w [EClose; ERunTask; ERunTask]) = [].
Proof. repeat split. Qed.

(** ** The buffer guard *)

Lemma silent_refl (w : World) : silent w w.
Proof. now repeat split. Qed.

Lemma silent_trans (a b c : World) :
  silent a b -> silent b c -> silent a c.
Proof.
  unfold silent. intros (P1 & ? & ? & ?) (P2 & ? & ? & ?).
  split; [eapply same_phase_trans; eassumption|].
  repeat split; congruence.
Qed.

Lemma settle_silent (w : World) (r : nat) : silent w (settle w r).
Proof.
  unfold settle. destruct (nth_error (requests w) r); now repeat split.
Qed.

Lemma createConnection_silent (w : World) : silent w (createConnection w).
Proof. unfold createConnection. destruct (onLine w); now repeat split. Qed.

Lemma onabort_silent (w : World) : silent w (onabort w).
Proof.
  unfold onabort.
  destruct (ReadyState_eqb (readyState (slots w)) CLOSED); cbn [negb].
  - apply silent_refl.
  - eapply silent_trans; [|apply createConnection_silent]. now repeat split.
Qed.

Lemma request_abort_silent (w : World) (r : nat) :
  silent w (request_abort w r).
Proof.
  unfold request_abort. destruct (nth_error (requests w) r) as [q|].
  - destruct (inflight q); [|apply silent_refl].
    eapply silent_trans; [apply settle_silent|apply onabort_silent].
  - apply silent_refl.
Qed.

(** [request.abort()] on an in-flight request of a connection that is not
    CLOSED starts the next request at once. *)
Lemma request_abort_restarts (w : World) (r : nat) (q : Request) :
  nth_error (requests w) r = Some q -> inflight q = true ->
  readyState (slots w) <> CLOSED -> onLine w = true ->
  request (slots (request_abort w r)) = Some (length (requests w)) /\
  length (requests (request_abort w r)) = S (length (requests w)).
Proof.
  intros Hq Hi Ho Hn.
  unfold request_abort. rewrite Hq, Hi.
  unfold onabort. rewrite settle_slots.
  replace (ReadyState_eqb (readyState (slots w)) CLOSED) with false
    by (destruct (readyState (slots w)); reflexivity || congruence).
  cbn [negb]. unfold createConnection.
  replace (onLine (set_slots (settle w r) (set_request (slots w) None)))
    with true
    by (unfold settle; rewrite Hq; cbn; congruence).
  cbn. rewrite length_app, settle_requests_length. cbn. split; [|lia].
  reflexivity.
Qed.

(** What a chunk schedules: the "open" closure on a first valid chunk,
    then the messages parsed from it; never a closure that reports an
    error.  It starts no timer, and only a first chunk touches the
    accumulator. *)
Lemma progress_chunk_parsed (w w1 : World) (r status : nat)
      (ct : option jsstring) (u : option URL) (text : jsstring) :
  progress_chunk w r status ct u text = (w1, true) ->
  (exists ts, tasks w1 = tasks w ++ ts /\ existsb error_task ts = false) /\
  timers w1 = timers w /\
  onLine w1 = onLine w /\
  length (requests w1) = length (requests w) /\
  readyState (slots w1) <> CLOSED /\
  (forall q, nth_error (requests w) r = Some q -> first q = false ->
             additionalReconnectionTime (slots w1) =
             additionalReconnectionTime (slots w)).
Proof.
  unfold progress_chunk.
  destruct (nth_error (requests w) r) as [q|]; [|discriminate].
  destruct (ReadyState_eqb (readyState (slots w)) CLOSED) eqn:C;
    [discriminate|].
  destruct (status =? 0); [discriminate|]. cbn [orb].
  assert (C' : readyState (slots w) <> CLOSED)
    by (intros E; rewrite E in C; discriminate).
  destruct (first q) eqn:F; [destruct (valid_response status ct)|];
    cbv beta iota zeta; cbn [negb]; try discriminate;
    match goal with
    | |- context [parseStream ?s ?st ?b] =>
        pose proof (parseStream_same s st b) as H;
        destruct (parseStream s st b) as [[s1 st1] evs];
        destruct H as (_ & _ & _ & Hr & Ha)
    end;
    intros E; injection E as <-; cbn in *.
  - split.
    { exists (TAnnounce :: List.map (TMessage r) evs).
      rewrite <- app_assoc. split; [reflexivity|].
      cbn. clear. induction evs; auto. }
    repeat split; try congruence;
      try (now rewrite !update_request_length);
      try (intros q0 [= <-] Hf; congruence).
  - split.
    { exists (List.map (TMessage r) evs). split; [reflexivity|].
      clear. induction evs; auto. }
    repeat split; try congruence;
      try (now rewrite !update_request_length).
Qed.

(** C8. A restart by the buffer guard: when [request.onprogress] gets past
    [parseStream] with [responseText] longer than [maxBufferSize], what the
    handler adds to the chunk is [request.abort()] alone, and that call
    delivers nothing, queues nothing (so no "error" closure is ever
    scheduled by the step), starts no timer, and leaves the backoff
    accumulator and [readyState] as they were; an in-flight request is
    replaced at once by a new one. *)
Theorem buffer_guard_restart_silent (w w1 : World) (r status : nat)
        (ct : option jsstring) (u : option URL) (text : jsstring) :
  progress_chunk w r status ct u text = (w1, true) ->
  buffer_exceeded w1 text = true ->
  let w' := step w (EProgress r status ct u text) in
  w' = request_abort w1 r /\
  delivered w' = delivered w /\
  readyState (slots w') = readyState (slots w) /\
  timers w' = timers w /\
  tasks w' = tasks w1 /\
  (exists ts, tasks w' = tasks w ++ ts /\ existsb error_task ts = false) /\
  additionalReconnectionTime (slots w') =
    additionalReconnectionTime (slots w1) /\
  (forall q, nth_error (requests w) r = Some q -> first q = false ->
             additionalReconnectionTime (slots w') =
             additionalReconnectionTime (slots w)) /\
  (forall q, nth_error (requests w1) r = Some q -> inflight q = true ->
             onLine w = true ->
             request (slots w') = Some (length (requests w)) /\
             length (requests w') = S (length (requests w))).
Proof.
  intros P B w'.
  assert (E : w' = request_abort w1 r).
  { subst w'. cbn [step]. unfold onprogress. rewrite P, B. reflexivity. }
  destruct (progress_chunk_parsed _ _ _ _ _ _ _ P)
    as (Ht & Hti & Hon & Hlen & Hopen & Hacc).
  pose proof (progress_chunk_phase w r status ct u text) as Hp.
  rewrite P in Hp. cbn [fst] in Hp. destruct Hp as [Hp1 Hp2].
  destruct (request_abort_silent w1 r) as ((S1 & S2) & S3 & S4 & S5).
  rewrite E. clear E. clearbody w'.
  split; [reflexivity|].
  repeat (split; [congruence|]).
  split; [|split; [congruence|split]].
  - destruct Ht as (ts & Hts & He). exists ts. split; congruence.
  - intros q Hq Hf. rewrite S5. now apply Hacc with q.
  - intros q Hq Hi Ho.
    destruct (request_abort_restarts w1 r q Hq Hi Hopen) as [R1 R2];
      [congruence|].
    rewrite R1, R2, Hlen. now split.
Qed.

Lemma buffer_guard_restart_silent_witness :
  let w := small_buffer_world in
  let e := EProgress 0 200 example_contentType None plain_stream in
  let w1 :=
    fst (progress_chunk w 0 200 example_contentType None plain_stream) in
  progress_chunk w 0 200 example_contentType None plain_stream = (w1, true) /\
  buffer_exceeded w1 plain_stream = true /\
  delivered (step w e) = delivered w /\
  readyState (slots (step w e)) = readyState (slots w) /\
  timers (step w e) = timers w /\
  additionalReconnectionTime (slots (step w e)) =
    additionalReconnectionTime (slots w1).
Proof.
  cbv zeta. split; [reflexivity|]. split; [reflexivity|].
  pose proof
    (buffer_guard_restart_silent small_buffer_world
       (fst (progress_chunk small_buffer_world 0 200
               example_contentType None plain_stream))
       0 200 example_contentType None plain_stream
       eq_refl eq_refl) as H.
  cbv zeta in H.
  destruct H as (_ & H1 & H2 & H3 & _ & _ & H4 & _).
  repeat split; assumption.
Defined.

(** ** Fatal failures *)

(** The closure of [failConnection], run while the connection is not
    CLOSED, closes it and delivers one "error"; afterwards no request is
    ever made again and nothing more is delivered. *)
Lemma close_requests_length (w : World) :
  length (requests (close w)) = length (requests w).
Proof.
  unfold close. destruct (request (slots w)) as [r|]; [|reflexivity].
  now rewrite request_abort_closed_length.
Qed.

Lemma fail_task_fatal (w : World) :
  readyState (slots w) <> CLOSED ->
  let w' := run_task w TFail in
  readyState (slots w') = CLOSED /\
  delivered w' = delivered w ++ [NError] /\
  length (requests w') = length (requests w) /\
  forall es : list Event,
    length (requests (run w' es)) = length (requests w) /\
    delivered (run w' es) = delivered w ++ [NError].
Proof.
  intros H w'.
  assert (E : w' = dispatchEvent (close w) NError).
  { subst w'. cbn [run_task].
    destruct (readyState (slots w)); try congruence; reflexivity. }
  destruct (close_closed w) as [C D].
  assert (C' : readyState (slots w') = CLOSED) by (rewrite E; exact C).
  assert (D' : delivered w' = delivered w ++ [NError])
    by (rewrite E; cbn; now rewrite D).
  assert (L : length (requests w') = length (requests w))
    by (rewrite E; cbn; apply close_requests_length).
  repeat split; try assumption;
    destruct (closed_run es w' C') as (_ & R1 & R2); congruence.
Qed.

(** A first chunk that fails validation is fatal: with nothing else
    queued, the next closure closes the connection and delivers the one
    "error"; no request is made afterwards. *)
Lemma invalid_first_chunk_fatal (w : World) (r status : nat) (q : Request)
      (ct : option jsstring) (u : option URL) (text : jsstring) :
  nth_error (requests w) r = Some q -> first q = true ->
  readyState (slots w) <> CLOSED -> status <> 0 ->
  valid_response status ct = false ->
  tasks w = [] ->
  let w' := run w [EProgress r status ct u text; ERunTask] in
  readyState (slots w') = CLOSED /\
  delivered w' = delivered w ++ [NError] /\
  forall es : list Event,
    length (requests (run w' es)) = length (requests w) /\
    delivered (run w' es) = delivered w ++ [NError].
Proof.
  intros Q F O Z V T.
  assert (E : step w (EProgress r status ct u text) =
              failConnection
                (set_requests w
                   (update_request (requests w) r (set_first q false)))).
  { cbn [step]. unfold onprogress, progress_chunk. rewrite Q, F, V.
    apply Nat.eqb_neq in Z. rewrite Z.
    destruct (readyState (slots w)); try congruence; reflexivity. }
  unfold run. cbn [fold_left]. rewrite E.
  cbn [step failConnection queue tasks set_tasks set_requests].
  rewrite T. cbn [app].
  match goal with
  | |- context [run_task ?w0 TFail] =>
      destruct (fail_task_fatal w0 O) as (C & D & L & R)
  end.
  change (delivered (set_tasks _ [])) with (delivered w) in D, R.
  change (requests (set_tasks _ []))
    with (update_request (requests w) r (set_first q false)) in L, R.
  rewrite update_request_length in L, R.
  split; [exact C|]. split; [exact D|]. exact R.
Qed.

(** So is a load with status 204 before any chunk. *)
Lemma load_204_first_fatal (w : World) (r : nat) (q : Request) :
  nth_error (requests w) r = Some q -> first q = true ->
  readyState (slots w) <> CLOSED ->
  tasks w = [] ->
  let w' := run w [ELoad r 204; ERunTask] in
  readyState (slots w') = CLOSED /\
  delivered w' = delivered w ++ [NError] /\
  forall es : list Event,
    length (requests (run w' es)) = length (requests w) /\
    delivered (run w' es) = delivered w ++ [NError].
Proof.
  intros Q F O T.
  assert (E : step w (ELoad r 204) =
              failConnection
                (set_slots (settle w r) (set_request (slots w) None))).
  { cbn [step]. unfold onload.
    rewrite settle_slots.
    replace (nth_error (requests (settle w r)) r)
      with (Some (set_inflight q false))
      by (unfold settle; rewrite Q; cbn;
          symmetry; now apply nth_error_update_same with q).
    replace (ReadyState_eqb (readyState (slots w)) CLOSED) with false
      by (destruct (readyState (slots w)); reflexivity || congruence).
    cbn. now rewrite F. }
  unfold run. cbn [fold_left]. rewrite E.
  assert (T' : tasks (settle w r) = []).
  { destruct (settle_silent w r) as (_ & -> & _). exact T. }
  cbn [step failConnection queue tasks set_tasks set_slots].
  rewrite T'. cbn [app].
  match goal with
  | |- context [run_task ?w0 TFail] =>
      assert (O' : readyState (slots w0) <> CLOSED) by exact O;
      destruct (fail_task_fatal w0 O') as (C & D & L & R)
  end.
  change (delivered (set_tasks _ [])) with (delivered (settle w r)) in D, R.
  change (requests (set_tasks _ [])) with (requests (settle w r)) in L, R.
  rewrite settle_requests_length in L, R.
  destruct (settle_silent w r) as ((_ & D') & _).
  rewrite D' in D, R.
  split; [exact C|]. split; [exact D|]. exact R.
Qed.

(** C2. [request.onload] with a status other than 200 and 204 clears
    [slots.request] and does nothing else: it queues no closure, starts no
    timer, delivers nothing and leaves [readyState] as it is.  When no
    progress event came before (the response had no body), the connection
    is therefore not failed: it stays CONNECTING with nothing pending. *)
Theorem onload_other_status_not_fatal (w : World) (r status : nat) :
  status <> 200 -> status <> 204 ->
  let w' := step w (ELoad r status) in
  readyState (slots w') = readyState (slots w) /\
  tasks w' = tasks w /\ timers w' = timers w /\
  delivered w' = delivered w /\
  length (requests w') = length (requests w).
Proof.
  intros H1 H2. cbn [step]. unfold onload.
  apply Nat.eqb_neq in H1, H2.
  destruct (nth_error (requests (settle w r)) r) as [q|].
  - rewrite H1, H2. cbn [andb].
    destruct (ReadyState_eqb (readyState (slots (settle w r))) CLOSED
              || (status =? 0));
      cbn; rewrite ?settle_slots, ?settle_requests_length;
      destruct (settle_silent w r) as ((_ & D) & T & Ti & _);
      now repeat split.
  - rewrite settle_slots, settle_requests_length.
    destruct (settle_silent w r) as ((_ & D) & T & Ti & _).
    now repeat split.
Qed.

Lemma onload_other_status_not_fatal_witness :
  500 <> 200 /\ 500 <> 204 /\
  let w' := step example_world (ELoad 0 500) in
  readyState (slots w') = CONNECTING /\
  tasks w' = [] /\ timers w' = [] /\ delivered w' = [] /\
  length (requests w') = 1.
Proof.
  split; [discriminate|]. split; [discriminate|].
  apply (onload_other_status_not_fatal example_world 0 500); discriminate.
Defined.

(** The two failures that the module does treat as fatal, for comparison:
    a first chunk with status 500 and a load with status 204 before any
    chunk. *)
Example fatal_paths :
  (let w := run example_world
              [EProgress 0 500 example_contentType None plain_stream;
               ERunTask] in
   readyState (slots w) = CLOSED /\ delivered w = [NError] /\
   timers w = []) /\
  (let w := run example_world [ELoad 0 204; ERunTask] in
   readyState (slots w) = CLOSED /\ delivered w = [NError] /\
   timers w = []).
Proof. repeat split. Qed.

(** ** Messages of a response that failed validation *)

Lemma fresh_in_update (rs : list Request) (r0 r : nat) (q q' : Request) :
  nth_error rs r0 = Some q ->
  (first q' = true -> first q = true) ->
  fresh_in (update_request rs r0 q') r -> fresh_in rs r.
Proof.
  unfold fresh_in. intros Hq Hf. rewrite nth_error_update_request.
  destruct (Nat.eqb_spec r r0) as [->|_]; [|auto].
  rewrite Hq. exact Hf.
Qed.

Lemma fresh_in_app (rs : list Request) (q : Request) (r : nat) :
  fresh_in (rs ++ [q]) r -> fresh_in rs r.
Proof.
  unfold fresh_in. destruct (Nat.lt_ge_cases r (length rs)) as [H|H].
  - now rewrite nth_error_app1.
  - apply nth_error_None in H. now rewrite H.
Qed.

Lemma extends_refl (w : World) : extends w w.
Proof.
  repeat split; auto. exists []. split; [now rewrite app_nil_r|auto].
Qed.

Lemma extends_trans (a b c : World) :
  extends a b -> extends b c -> extends a c.
Proof.
  intros (F1 & D1 & ts1 & T1 & M1) (F2 & D2 & ts2 & T2 & M2).
  repeat split; [auto|congruence|].
  exists (ts1 ++ ts2). split.
  - now rewrite T2, T1, app_assoc.
  - intros r H. rewrite existsb_app, M1, M2; auto.
Qed.

Lemma extends_same_tasks (w w' : World) :
  (forall r, fresh r w' -> fresh r w) ->
  delivered w' = delivered w -> tasks w' = tasks w -> extends w w'.
Proof.
  intros F D T. repeat split; auto.
  exists []. split; [now rewrite app_nil_r|auto].
Qed.

Lemma extends_queue (w : World) (t : Task) :
  (forall r, from_request r t = false) -> extends w (queue w t).
Proof.
  intros H. repeat split; auto. exists [t]. split; [reflexivity|].
  intros r _. cbn. now rewrite H.
Qed.

Lemma settle_extends (w : World) (r : nat) : extends w (settle w r).
Proof.
  unfold settle. destruct (nth_error (requests w) r) as [q|] eqn:E;
    [|apply extends_refl].
  apply extends_same_tasks; try reflexivity.
  intros r'. unfold fresh. cbn. now apply fresh_in_update with q.
Qed.

Lemma createConnection_extends (w : World) : extends w (createConnection w).
Proof.
  unfold createConnection.
  destruct (onLine w); cbn [negb]; apply extends_same_tasks; try reflexivity;
    auto.
  intros r. unfold fresh. cbn. apply fresh_in_app.
Qed.

Lemma onabort_extends (w : World) : extends w (onabort w).
Proof.
  unfold onabort. destruct (negb _); [|apply extends_refl].
  eapply extends_trans; [|apply createConnection_extends].
  now apply extends_same_tasks.
Qed.

Lemma request_abort_extends (w : World) (r : nat) :
  extends w (request_abort w r).
Proof.
  unfold request_abort. destruct (nth_error (requests w) r) as [q|];
    [|apply extends_refl].
  destruct (inflight q); [|apply extends_refl].
  eapply extends_trans; [apply settle_extends|apply onabort_extends].
Qed.

Lemma close_extends (w : World) : extends w (close w).
Proof.
  unfold close. destruct (request (slots w)) as [r|].
  - eapply extends_trans; [|apply request_abort_extends].
    now apply extends_same_tasks.
  - now apply extends_same_tasks.
Qed.

Lemma reestablishConnection_extends (w : World) :
  extends w (reestablishConnection w).
Proof.
  repeat split; auto. exists [TReestablish]. split; [reflexivity|auto].
Qed.

Lemma existsb_from_request_other (r r0 : nat) (evs : list MessageEvent) :
  r <> r0 -> existsb (from_request r) (List.map (TMessage r0) evs) = false.
Proof.
  intros H. induction evs as [|e evs IH]; [reflexivity|].
  cbn. rewrite IH. apply Nat.eqb_neq in H. rewrite Nat.eqb_sym, H.
  reflexivity.
Qed.

Lemma progress_chunk_extends (w : World) (r status : nat)
      (ct : option jsstring) (u : option URL) (text : jsstring) :
  extends w (fst (progress_chunk w r status ct u text)).
Proof.
  unfold progress_chunk.
  destruct (nth_error (requests w) r) as [q|] eqn:Q; [|apply extends_refl].
  destruct (ReadyState_eqb (readyState (slots w)) CLOSED || (status =? 0));
    [apply extends_refl|].
  assert (NF : forall (rs : list Request) (q' : Request) (r' : nat),
             nth_error rs r = Some q' -> first q' = false ->
             fresh_in rs r' -> r' <> r).
  { intros rs q' r' Hn Hf Hr ->. unfold fresh_in in Hr.
    rewrite Hn in Hr. congruence. }
  destruct (first q) eqn:F; [destruct (valid_response status ct)|];
    cbv beta iota zeta; cbn [negb fst];
    try match goal with
        | |- context [parseStream ?s ?st ?b] =>
            destruct (parseStream s st b) as [[s1 st1] evs]
        end; cbn [fst].
  - (* first chunk, valid *)
    split; [|split; [reflexivity|]].
    + intros r'. unfold fresh. cbn.
      intros H.
      eapply fresh_in_update in H;
        [|eapply nth_error_update_same; exact Q|cbn; discriminate].
      eapply fresh_in_update in H; [exact H|exact Q|auto].
    + exists (TAnnounce :: List.map (TMessage r) evs). split.
      * cbn. now rewrite <- app_assoc.
      * intros r'. unfold fresh. cbn. intros H. cbn.
        apply existsb_from_request_other.
        eapply NF; [| |exact H];
          [eapply nth_error_update_same, nth_error_update_same; exact Q
          |reflexivity].
  - (* first chunk, invalid *)
    split; [|split; [reflexivity|]].
    + intros r'. unfold fresh. cbn.
      apply fresh_in_update with (q := q); auto.
    + exists [TFail]. split; [reflexivity|auto].
  - (* later chunk *)
    split; [|split; [reflexivity|]].
    + intros r'. unfold fresh. cbn.
      apply fresh_in_update with (q := q); auto.
    + exists (List.map (TMessage r) evs). split; [reflexivity|].
      intros r'. unfold fresh. cbn. intros H.
      apply existsb_from_request_other.
      eapply NF; [| |exact H];
        [eapply nth_error_update_same; exact Q|exact F].
Qed.

Lemma set_request_extends (w : World) (v : option nat) :
  extends w (set_slots w (set_request (slots w) v)).
Proof. now apply extends_same_tasks. Qed.

Lemma online_listeners_extends (n : nat) (w : World) :
  extends w (Nat.iter n online_listener w).
Proof.
  induction n as [|n IH]; [apply extends_refl|].
  change (Nat.iter (S n) online_listener w)
    with (online_listener (Nat.iter n online_listener w)).
  eapply extends_trans; [exact IH|].
  unfold online_listener.
  destruct (negb _); [apply createConnection_extends|apply extends_refl].
Qed.

(** Every step but a queued closure only appends to the queue. *)
Lemma step_extends (w : World) (e : Event) :
  e <> ERunTask -> extends w (step w e).
Proof.
  intros H. destruct e; try congruence; cbn [step].
  - apply close_extends.
  - unfold onprogress.
    pose proof (progress_chunk_extends w r status contentType responseURL
                                       responseText) as P.
    destruct (progress_chunk w r status contentType responseURL responseText)
      as [w1 parsed]. cbn [fst] in P.
    destruct (parsed && buffer_exceeded w1 responseText); [|exact P].
    eapply extends_trans; [exact P|apply request_abort_extends].
  - eapply extends_trans; [apply settle_extends|].
    unfold onload. destruct (nth_error (requests (settle w r)) r) as [q|];
      [|apply extends_refl].
    destruct (ReadyState_eqb _ CLOSED || (status =? 0));
      [apply extends_refl|].
    eapply extends_trans; [apply set_request_extends with (v := None)|].
    destruct (status =? 200); destruct ((status =? 204) && first q).
    + eapply extends_trans; [apply reestablishConnection_extends|].
      now apply extends_queue.
    + apply reestablishConnection_extends.
    + now apply extends_queue.
    + apply extends_refl.
  - destruct (nth_error (requests w) r); [|apply extends_refl].
    eapply extends_trans; [apply settle_extends|].
    unfold onerror. destruct (negb _); [|apply extends_refl].
    eapply extends_trans; [apply set_request_extends with (v := None)|].
    apply reestablishConnection_extends.
  - destruct (nth_error (requests w) r); [|apply extends_refl].
    eapply extends_trans; [apply settle_extends|apply onabort_extends].
  - destruct (nth_error (timers w) i); [|apply extends_refl].
    eapply extends_trans; [|now apply extends_queue].
    now apply extends_same_tasks.
  - now apply extends_same_tasks.
  - eapply extends_trans; [|apply online_listeners_extends].
    now apply extends_same_tasks.
  - unfold setReconnectionTimeIncreasingRate.
    destruct (Qle_bool value 1);
      [apply extends_refl|now apply extends_same_tasks].
  - unfold setMaxBufferSize.
    destruct (Qle_bool value 0);
      [apply extends_refl|now apply extends_same_tasks].
Qed.

(** A queued closure leaves the queue alone and delivers at most one
    notification, a message of request [r] only if it is the closure of
    one. *)
Lemma run_task_shape (w : World) (t : Task) :
  let w' := run_task w t in
  tasks w' = tasks w /\
  (forall r, fresh r w' -> fresh r w) /\
  (delivered w' = delivered w \/
   exists n, delivered w' = delivered w ++ [n] /\
             forall r, message_from r n = from_request r t).
Proof.
  cbv zeta. unfold run_task.
  destruct t; destruct (readyState (slots w));
    cbn [ReadyState_eqb negb];
    try (repeat split; auto; fail);
    try (repeat split; auto; right; eexists; split; [reflexivity|];
         reflexivity).
  - destruct (createConnection_extends w) as (F & D & ts & T & _).
    destruct (createConnection_silent w) as (_ & T' & _).
    repeat split; auto.
  - destruct (close_extends w) as (F & D & _).
    destruct (close_closed w) as (_ & D').
    assert (T : tasks (close w) = tasks w).
    { unfold close. destruct (request (slots w)) as [r|]; [|reflexivity].
      match goal with
      | |- context [request_abort ?w0 r] =>
          destruct (request_abort_silent w0 r) as (_ & -> & _)
      end. reflexivity. }
    repeat split; auto. right. exists NError. cbn. rewrite D'. now split.
  - destruct (close_extends w) as (F & D & _).
    destruct (close_closed w) as (_ & D').
    assert (T : tasks (close w) = tasks w).
    { unfold close. destruct (request (slots w)) as [r|]; [|reflexivity].
      match goal with
      | |- context [request_abort ?w0 r] =>
          destruct (request_abort_silent w0 r) as (_ & -> & _)
      end. reflexivity. }
    repeat split; auto. right. exists NError. cbn. rewrite D'. now split.
Qed.

Lemma existsb_app_single {A} (f : A -> bool) (l : list A) (x : A) :
  existsb f (l ++ [x]) = existsb f l || f x.
Proof. rewrite existsb_app. cbn. now rewrite orb_false_r. Qed.

Lemma Event_eq_ERunTask (e : Event) : e = ERunTask \/ e <> ERunTask.
Proof. destruct e; (now left) || (right; discriminate). Qed.

Lemma ReadyState_eq_CLOSED (a : ReadyState) : a = CLOSED \/ a <> CLOSED.
Proof. destruct a; (now left) || (right; discriminate). Qed.

(** A fresh request has no message anywhere: true of a new [EventSource]
    and kept by every step. *)
Lemma clean_init (d rate maxBuffer : Q) (online : bool) (u : URL)
      (credentials : bool) :
  clean (init d rate maxBuffer online u credentials).
Proof.
  intros r _. unfold init, createConnection, no_message.
  destruct online; now split.
Qed.

Lemma clean_step (w : World) (e : Event) : clean w -> clean (step w e).
Proof.
  intros C. destruct (Event_eq_ERunTask e) as [->|N].
  - cbn [step]. destruct (tasks w) as [|t ts] eqn:T; [exact C|].
    destruct (run_task_shape (set_tasks w ts) t) as (HT & HF & HD).
    intros r Hr. specialize (HF r Hr).
    destruct (C r HF) as [C1 C2]. rewrite T in C1. cbn in C1.
    apply orb_false_iff in C1 as [Ct Cts].
    split.
    + rewrite HT. exact Cts.
    + destruct HD as [->|(n & -> & Hn)]; [exact C2|].
      cbn [delivered set_tasks].
      now rewrite existsb_app_single, C2, Hn, Ct.
  - destruct (step_extends w e N) as (F & D & ts & T & M).
    intros r Hr. destruct (C r (F r Hr)) as [C1 C2]. split.
    + now rewrite T, existsb_app, C1, (M r Hr).
    + now rewrite D.
Qed.

Lemma clean_run (es : list Event) (w : World) : clean w -> clean (run w es).
Proof.
  revert w; induction es as [|e es IH]; intros w C; [exact C|].
  apply (IH (step w e)). now apply clean_step.
Qed.

Lemma fail_first_app (r : nat) (ts ts' : list Task) :
  fail_first r ts = true -> fail_first r (ts ++ ts') = true.
Proof.
  induction ts as [|t ts IH]; [discriminate|].
  destruct t; cbn; auto.
  intros H. apply andb_prop in H as [H1 H2]. now rewrite H1, IH.
Qed.

Lemma fail_first_queued (r : nat) (ts : list Task) :
  existsb (from_request r) ts = false -> fail_first r (ts ++ [TFail]) = true.
Proof.
  induction ts as [|t ts IH]; [reflexivity|].
  cbn [existsb]. intros H. apply orb_false_iff in H as [Ht Hts].
  destruct t; cbn; auto. cbn in Ht. now rewrite Ht, IH.
Qed.

(** Once doomed, always doomed. *)
Lemma doomed_step (r : nat) (w : World) (e : Event) :
  doomed r w -> doomed r (step w e).
Proof.
  intros [D [C|F]].
  - destruct (closed_step w e C) as (C' & D' & _).
    split; [now rewrite D'|now left].
  - destruct (Event_eq_ERunTask e) as [->|N].
    + cbn [step]. destruct (tasks w) as [|t ts] eqn:T; [discriminate F|].
      destruct (run_task_shape (set_tasks w ts) t) as (HT & _ & HD).
      destruct (ReadyState_eq_CLOSED (readyState (slots w))) as [C|O].
      { rewrite run_task_closed by exact C. split; [exact D|now left]. }
      destruct t; cbn in F;
        try (split;
             [destruct HD as [->|(n & -> & Hn)]; [exact D|];
              cbn [delivered set_tasks];
              now rewrite existsb_app_single, D, Hn
             |right; now rewrite HT]).
      * (* the fail closure runs *)
        destruct (fail_task_fatal (set_tasks w ts) O) as (C' & D' & _).
        split; [|now left].
        rewrite D'. cbn [delivered set_tasks].
        now rewrite existsb_app_single, D.
      * (* a message of another request *)
        apply andb_prop in F as [Fr Fts].
        split; [|right; now rewrite HT].
        destruct HD as [->|(n & -> & Hn)]; [exact D|].
        cbn [delivered set_tasks].
        rewrite existsb_app_single, D, Hn. cbn.
        now apply negb_true_iff in Fr.
    + destruct (step_extends w e N) as (_ & D' & ts & T & _).
      split; [now rewrite D'|].
      right. rewrite T. now apply fail_first_app.
Qed.

Lemma doomed_run (r : nat) (es : list Event) (w : World) :
  doomed r w -> doomed r (run w es).
Proof.
  revert w; induction es as [|e es IH]; intros w D; [exact D|].
  apply (IH (step w e)). now apply doomed_step.
Qed.

(** A first chunk that fails validation dooms its request. *)
Lemma failed_validation_doomed (w : World) (r status : nat)
      (ct : option jsstring) (u : option URL) (text : jsstring) :
  clean w ->
  (exists q, nth_error (requests w) r = Some q /\ first q = true) ->
  readyState (slots w) <> CLOSED -> status <> 0 ->
  valid_response status ct = false ->
  doomed r (step w (EProgress r status ct u text)).
Proof.
  intros C (q & Q & F) O S V.
  assert (E : step w (EProgress r status ct u text) =
              failConnection
                (set_requests w
                   (update_request (requests w) r (set_first q false)))).
  { cbn [step]. unfold onprogress, progress_chunk. rewrite Q, F, V.
    apply Nat.eqb_neq in S. rewrite S.
    destruct (readyState (slots w)); try congruence; reflexivity. }
  rewrite E.
  assert (Fr : fresh r w) by (unfold fresh, fresh_in; now rewrite Q).
  destruct (C r Fr) as [C1 C2]. split; [exact C2|].
  right. cbn. now apply fail_first_queued.
Qed.

(** C9. When the first progress event of a request fails validation, no
    message parsed from that response is ever delivered, in any state
    that an [EventSource] can reach and whatever happens afterwards.
    Later chunks of the response are still parsed and their messages
    queued (second part, on the stream "data: x\n\n" with status 500), but
    the fail closure is ahead of them in the queue and closes the
    connection first. *)
Theorem failed_validation_no_message :
  (forall (d rate maxBuffer : Q) (online : bool) (u0 : URL)
          (credentials : bool) (before after : list Event)
          (r status : nat) (ct : option jsstring) (u : option URL)
          (text : jsstring),
      let w := run (init d rate maxBuffer online u0 credentials) before in
      (exists q, nth_error (requests w) r = Some q /\ first q = true) ->
      readyState (slots w) <> CLOSED -> status <> 0 ->
      valid_response status ct = false ->
      let w' := run (step w (EProgress r status ct u text)) after in
      existsb (message_from r) (delivered w') = false) /\
  (let chunk := EProgress 0 500 example_contentType None plain_stream in
   let w := run example_world [chunk; chunk] in
   tasks w =
     [TFail;
      TMessage 0 (mkMessageEvent (str "message") (str "x") []  [])] /\
   delivered (run w [ERunTask; ERunTask]) = [NError]).
Proof.
  split; [|now split].
  intros d rate maxBuffer online u0 credentials before after r status ct u
         text w Q O S V w'.
  assert (C : clean w) by apply clean_run, clean_init.
  apply (doomed_run r after), (failed_validation_doomed w r status ct u text);
    assumption.
Qed.

Lemma failed_validation_no_message_witness :
  let w := run example_world [] in
  (exists q, nth_error (requests w) 0 = Some q /\ first q = true) /\
  readyState (slots w) <> CLOSED /\ 500 <> 0 /\
  valid_response 500 example_contentType = false /\
  existsb (message_from 0)
    (delivered
       (run (step w (EProgress 0 500 example_contentType None plain_stream))
            [EProgress 0 500 example_contentType None plain_stream;
             ERunTask; ERunTask])) = false.
Proof.
  cbv zeta.
  assert (Q : exists q, nth_error (requests (run example_world [])) 0 = Some q
                        /\ first q = true)
    by (eexists; split; reflexivity).
  assert (O : readyState (slots (run example_world [])) <> CLOSED)
    by discriminate.
  assert (S : 500 <> 0) by discriminate.
  repeat (split; [assumption || reflexivity|]).
  exact (proj1 failed_validation_no_message 4000%Q (3 # 2)%Q 65536%Q true
               example_url false []
               [EProgress 0 500 example_contentType None plain_stream;
                ERunTask; ERunTask]
               0 500 example_contentType None plain_stream Q O S eq_refl).
Defined.

(** * Further properties of the parser *)

(** ** The cursor *)

Lemma LINE_match_None_iff (s : jsstring) :
  LINE_match s = None <-> no_terminator s = true.
Proof.
  induction s as [|c s IH]; [now split|].
  cbn [LINE_match no_terminator forallb]. unfold is_terminator.
  destruct (N.eqb c CR).
  - cbn. split; [|discriminate].
    destruct s as [|c' s]; [discriminate|]. destruct (N.eqb c' LF); discriminate.
  - destruct (N.eqb c LF); cbn; [split; discriminate|].
    destruct (LINE_match s) as [[l n]|].
    + split; [discriminate|]. intros H. apply IH in H. discriminate.
    + split; [intros _; now apply IH|reflexivity].
Qed.

(** A match ends with a line terminator. *)
Lemma LINE_match_ends (s l : jsstring) (n : nat) :
  LINE_match s = Some (l, n) ->
  exists c, nth_error s (n - 1) = Some c /\ is_terminator c = true.
Proof.
  revert l n; induction s as [|c s IH]; intros l n H; [discriminate|].
  cbn [LINE_match] in H. unfold is_terminator.
  destruct (N.eqb c CR) eqn:Ec.
  - destruct s as [|c' s].
    + injection H as <- <-. exists c. now rewrite Ec.
    + destruct (N.eqb c' LF) eqn:El; injection H as <- <-.
      * exists c'. cbn. now rewrite El, orb_true_r.
      * exists c. cbn. now rewrite Ec.
  - destruct (N.eqb c LF) eqn:El.
    + injection H as <- <-. exists c. cbn. now rewrite El, orb_true_r.
    + destruct (LINE_match s) as [[l' n']|] eqn:M; [|discriminate].
      injection H as <- <-.
      destruct (IH _ _ eq_refl) as (x & Hx & Tx).
      pose proof (LINE_match_length _ _ _ M) as L.
      exists x. split; [|exact Tx].
      replace (S n' - 1) with (S (n' - 1)) by lia. exact Hx.
Qed.

Lemma LINE_exec_ends (b l : jsstring) (p p' : nat) :
  LINE_exec b p = Some (l, p') ->
  exists c, nth_error b (p' - 1) = Some c /\ is_terminator c = true.
Proof.
  intros E. pose proof (LINE_exec_advances _ _ _ _ E) as A.
  unfold LINE_exec in E. destruct (length b <? p) eqn:L; [discriminate|].
  apply Nat.ltb_ge in L. rewrite LINE_search_match in E.
  destruct (LINE_match (skipn p b)) as [[l0 n]|] eqn:M; [|discriminate].
  injection E as <- <-.
  destruct (LINE_match_ends _ _ _ M) as (c & Hc & Tc).
  pose proof (LINE_match_length _ _ _ M) as Ln.
  exists c. split; [|exact Tc].
  rewrite <- (firstn_skipn p b) at 1.
  rewrite nth_error_app2 by (rewrite length_firstn; lia).
  rewrite length_firstn.
  replace (p + n - 1 - Nat.min p (length b)) with (n - 1) by lia.
  exact Hc.
Qed.

Lemma parseLoop_cursor (b : jsstring) (f : nat) :
  forall (slots : Slots) (st : ParsingState),
    length b - st_pos st < f -> st_pos st <= length b ->
    let st1 := snd (fst (parseLoop f b slots st)) in
    st_pos st <= st_pos st1 <= length b /\
    no_terminator (skipn (st_pos st1) b) = true /\
    (st_pos st < st_pos st1 ->
     exists c, nth_error b (st_pos st1 - 1) = Some c /\
               is_terminator c = true).
Proof.
  induction f as [|f IH]; intros slots st H Hp; [lia|].
  cbn [parseLoop].
  destruct (LINE_exec b (st_pos st)) as [[l p']|] eqn:E.
  - pose proof (LINE_exec_advances _ _ _ _ E) as A.
    pose proof (LINE_exec_ends _ _ _ _ E) as T.
    pose proof (parseLine_pos slots (set_pos st p') l) as P.
    destruct (parseLine slots (set_pos st p') l) as [[s' st'] evs].
    cbn [fst snd set_pos st_pos] in P.
    specialize (IH s' st').
    destruct (parseLoop f b s' st') as [[s1 st1] e1].
    cbn [fst snd] in *. rewrite P in IH.
    destruct IH as (I1 & I2 & I3); [lia|lia|].
    split; [lia|]. split; [exact I2|]. intros _.
    destruct (Nat.eq_dec (st_pos st1) p') as [->|N]; [exact T|].
    apply I3. lia.
  - cbn [fst snd]. split; [lia|]. split; [|lia].
    unfold LINE_exec in E.
    replace (length b <? st_pos st) with false in E
      by (symmetry; apply Nat.ltb_ge; lia).
    rewrite LINE_search_match in E.
    apply LINE_match_None_iff.
    now destruct (LINE_match (skipn (st_pos st) b)) as [[? ?]|].
Qed.

(** X1. The cursor after [parseStream]: it never moves back and never
    passes the end of the buffer; when it moved, the unit before it is a
    CR or an LF; and what lies after it holds no line terminator: an
    unterminated last line stays unread for the next call. *)
Theorem cursor_after_parse (slots : Slots) (st : ParsingState)
        (buffer : jsstring) :
  st_pos st <= length buffer ->
  let '(_, st1, _) := parseStream slots st buffer in
  st_pos st <= st_pos st1 <= length buffer /\
  no_terminator (skipn (st_pos st1) buffer) = true /\
  (st_pos st < st_pos st1 ->
   exists c, nth_error buffer (st_pos st1 - 1) = Some c /\
             is_terminator c = true).
Proof.
  intros H.
  pose proof (parseLoop_cursor buffer (S (length buffer)) slots st) as P.
  unfold parseStream.
  destruct (parseLoop (S (length buffer)) buffer slots st) as [[s1 st1] e1].
  cbn [fst snd] in P. apply P; lia.
Qed.

Lemma cursor_after_parse_witness :
  let buffer := str "data: x" ++ [LF] ++ str "data: y" in
  st_pos state0 <= length buffer /\
  let '(_, st1, _) := parseStream example_slots state0 buffer in
  st_pos state0 <= st_pos st1 <= length buffer /\
  no_terminator (skipn (st_pos st1) buffer) = true /\
  (st_pos state0 < st_pos st1 ->
   exists c, nth_error buffer (st_pos st1 - 1) = Some c /\
             is_terminator c = true).
Proof.
  cbv zeta. split; [cbn; lia|].
  apply (cursor_after_parse example_slots state0). cbn. lia.
Defined.

Lemma no_terminator_skipn (n : nat) (s : jsstring) :
  no_terminator s = true -> no_terminator (skipn n s) = true.
Proof.
  revert n; induction s as [|c s IH]; intros [|n] H; try exact H.
  cbn [skipn]. apply IH. cbn in H. now apply andb_prop in H as [_ H].
Qed.

Lemma LINE_exec_None_app (b d : jsstring) (p : nat) :
  LINE_exec b p = None -> no_terminator d = true ->
  LINE_exec (b ++ d) p = None.
Proof.
  intros E D. unfold LINE_exec in *.
  destruct (length (b ++ d) <? p); [reflexivity|].
  rewrite LINE_search_match in *. rewrite skipn_app.
  assert (N : no_terminator (skipn p b ++ skipn (p - length b) d) = true).
  { unfold no_terminator. rewrite forallb_app.
    fold (no_terminator (skipn p b)).
    fold (no_terminator (skipn (p - length b) d)).
    rewrite (no_terminator_skipn _ _ D), andb_true_r.
    destruct (length b <? p) eqn:L.
    - apply Nat.ltb_lt in L. now rewrite skipn_all2 by lia.
    - apply LINE_match_None_iff.
      now destruct (LINE_match (skipn p b)) as [[? ?]|]. }
  apply LINE_match_None_iff in N. now rewrite N.
Qed.

(** X2. A progress event that completes no line changes nothing: after a
    buffer has been parsed, parsing it again, or parsing it extended by
    text without CR or LF, queues no event and leaves the slots and the
    parsing state (the cursor too) as they are. *)
Theorem partial_line_waits (slots : Slots) (st : ParsingState)
        (buffer more : jsstring) :
  no_terminator more = true ->
  let '(s1, st1, _) := parseStream slots st buffer in
  parseStream s1 st1 (buffer ++ more) = (s1, st1, []).
Proof.
  intros D.
  pose proof (parseLoop_done buffer (S (length buffer)) slots st) as P.
  unfold parseStream at 1.
  destruct (parseLoop (S (length buffer)) buffer slots st) as [[s1 st1] e1].
  cbn [fst snd] in P. unfold parseStream. cbn [parseLoop].
  rewrite (LINE_exec_None_app _ _ _ (P ltac:(lia)) D). reflexivity.
Qed.

Lemma partial_line_waits_witness :
  no_terminator (str "da") = true /\
  let '(s1, st1, _) :=
    parseStream example_slots state0 (str "data: x" ++ [LF]) in
  parseStream s1 st1 ((str "data: x" ++ [LF]) ++ str "da") = (s1, st1, []).
Proof.
  split; [reflexivity|].
  apply (partial_line_waits example_slots state0 (str "data: x" ++ [LF])
           (str "da")).
  reflexivity.
Defined.

(** X3. Chunking invariance where the code has it: when no chunk boundary
    separates a CR from the LF after it, the progress events of a
    response, each with the text received so far, queue the same events
    and end in the same slots and state as one call on the whole text. *)
Theorem chunking_invariant_safe_cuts (slots : Slots)
        (chunks : list jsstring) :
  safe_chunks [] chunks = true ->
  feed_all slots state0 (cumulative [] chunks) =
  parseStream slots state0 (concat chunks).
Proof.
  intros H. unfold feed_all.
  rewrite (feed_all_safe chunks [] slots state0 [] eq_refl H).
  cbn [app].
  now destruct (parseStream slots state0 (concat chunks)) as [[? ?] ?].
Qed.

Lemma chunking_invariant_safe_cuts_witness :
  safe_chunks [] example_chunks = true /\
  feed_all example_slots state0 (cumulative [] example_chunks) =
  parseStream example_slots state0 (concat example_chunks).
Proof.
  split; [reflexivity|].
  apply (chunking_invariant_safe_cuts example_slots example_chunks).
  reflexivity.
Defined.

(** ** Lines without effect *)

Lemma DIGITS_test_non_digit (v : jsstring) :
  JS.eqb v [] || existsb (fun c => negb (is_digit c)) v = true ->
  DIGITS_test v = false.
Proof.
  destruct v as [|c v]; [reflexivity|]. cbn [JS.eqb orb DIGITS_test].
  intros H. apply not_true_is_false. intros F.
  rewrite forallb_forall in F. apply existsb_exists in H as (x & Hx & Nx).
  rewrite (F x Hx) in Nx. discriminate.
Qed.

(** X4. Lines the parser ignores: a comment, a field with an unknown
    name, an [id] with a NUL in its value and a [retry] whose value is
    empty or not all digits leave the slots and the parsing state
    untouched and queue nothing. *)
Theorem unusable_line_ignored (slots : Slots) (st : ParsingState)
        (l : Line) :
  wf_line l = true -> unusable l = true ->
  parseLine slots st (render_line l) = (slots, st, []).
Proof.
  intros W U. rewrite parseLine_line by exact W.
  unfold unusable in U. destruct (field_of l) as [[name value]|];
    [|reflexivity].
  cbn [fst snd]. unfold processField. unfold known_name in U.
  destruct (eqb_spec (toLowerCase name) (str "event")) as [E|_];
    [rewrite E in U; discriminate U|].
  destruct (eqb_spec (toLowerCase name) (str "data")) as [E|_];
    [rewrite E in U; discriminate U|].
  destruct (eqb_spec (toLowerCase name) (str "id")) as [E|_].
  - rewrite E in U. cbn in U. rewrite orb_false_r in U. now rewrite U.
  - destruct (JS.eqb (toLowerCase name) (str "retry")); [|reflexivity].
    cbn in U. now rewrite (DIGITS_test_non_digit _ U).
Qed.

Lemma unusable_line_ignored_witness :
  wf_line (Pair (str "retry") true (str "450x")) = true /\
  unusable (Pair (str "retry") true (str "450x")) = true /\
  parseLine example_slots state0 (str "retry: 450x") =
  (example_slots, state0, []).
Proof.
  split; [reflexivity|]. split; [reflexivity|].
  apply (unusable_line_ignored example_slots state0
           (Pair (str "retry") true (str "450x"))); reflexivity.
Defined.

(** ** The retry field with a number *)

Lemma parseInt_acc (d : Decimal.uint) (acc : positive) :
  fold_left (fun a c => (10 * a + (c - 48))%N) (units_of_uint d)
            (N.pos acc) =
  N.pos (Pos.of_uint_acc d acc).
Proof.
  revert acc; induction d; intros acc;
    cbn [units_of_uint fold_left Pos.of_uint_acc];
    try reflexivity;
    match goal with
    | |- fold_left _ _ ?x = N.pos (Pos.of_uint_acc _ ?y) =>
        replace x with (N.pos y) by lia
    end; apply IHd.
Qed.

Lemma parseInt_units (d : Decimal.uint) :
  parseInt (units_of_uint d) = N.of_uint d.
Proof.
  unfold parseInt, N.of_uint.
  induction d; cbn [units_of_uint fold_left Pos.of_uint]; try reflexivity;
    try exact IHd;
    match goal with
    | |- fold_left _ _ ?x = N.pos (Pos.of_uint_acc _ ?y) =>
        change x with (N.pos y)
    end; apply parseInt_acc.
Qed.

Lemma units_of_uint_digits (d : Decimal.uint) :
  forallb is_digit (units_of_uint d) = true.
Proof. induction d; cbn [units_of_uint forallb]; auto. Qed.

Lemma decimal_digits (n : N) : DIGITS_test (decimal n) = true.
Proof.
  unfold decimal, DIGITS_test.
  pose proof (units_of_uint_digits (N.to_uint n)) as D.
  destruct (units_of_uint (N.to_uint n)) as [|c s] eqn:E; [|exact D].
  exfalso. pose proof (DecimalN.Unsigned.of_to n) as R.
  destruct (N.to_uint n) eqn:U; try discriminate E.
  cbn in R. subst n. discriminate U.
Qed.

(** X5. A [retry] field whose value is the decimal numeral of a number
    sets the reconnection time to that number and changes nothing else.
    The bound is the range in which a JavaScript number holds every
    integer exactly. *)
Theorem retry_sets_reconnection_time (slots : Slots) (st : ParsingState)
        (name : jsstring) (n : N) :
  toLowerCase name = str "retry" ->
  (n < 2 ^ 53)%N ->
  processField slots st name (decimal n) =
  (set_reconnectionTime slots (inject_Z (Z.of_N n)), st).
Proof.
  intros H _. unfold processField. rewrite H.
  change (JS.eqb (str "retry") (str "event")) with false.
  change (JS.eqb (str "retry") (str "data")) with false.
  change (JS.eqb (str "retry") (str "id")) with false.
  change (JS.eqb (str "retry") (str "retry")) with true.
  cbv iota. rewrite decimal_digits. unfold decimal.
  now rewrite parseInt_units, DecimalN.Unsigned.of_to.
Qed.

Lemma retry_sets_reconnection_time_witness :
  toLowerCase (str "Retry") = str "retry" /\ (450 < 2 ^ 53)%N /\
  decimal 450 = str "450" /\
  processField example_slots state0 (str "Retry") (str "450") =
  (set_reconnectionTime example_slots 450%Q, state0).
Proof.
  split; [reflexivity|]. split; [reflexivity|]. split; [reflexivity|].
  apply (retry_sets_reconnection_time example_slots state0 (str "Retry") 450);
    reflexivity.
Defined.

(** ** What the parser hands out and what it leaves alone *)

Lemma processField_origin (slots : Slots) (st : ParsingState)
      (name value : jsstring) :
  st_origin (snd (processField slots st name value)) = st_origin st.
Proof.
  unfold processField.
  repeat match goal with
         | |- context [if ?b then _ else _] => destruct b
         end; reflexivity.
Qed.

Lemma parseLine_events (slots : Slots) (st : ParsingState)
      (line : jsstring) :
  let '(_, st1, evs) := parseLine slots st line in
  st_origin st1 = st_origin st /\
  Forall (fun e => ev_type e <> [] /\ ev_origin e = st_origin st) evs.
Proof.
  unfold parseLine. destruct (JS.eqb line []).
  - unfold dispatchMessage.
    destruct (JS.eqb (st_data st) []); [now split|].
    split; [reflexivity|]. constructor; [|constructor].
    cbn. split; [|reflexivity].
    destruct (eqb_spec (st_type st) []) as [_|N]; [discriminate|exact N].
  - destruct (indexOf line COLON) as [[|n]|]; try (now split);
      match goal with
      | |- context [processField ?a ?b ?c ?d] =>
          pose proof (processField_origin a b c d) as H;
          destruct (processField a b c d)
      end; now split.
Qed.

Lemma parseLoop_events (buffer : jsstring) (f : nat) :
  forall (slots : Slots) (st : ParsingState),
    let '(_, st1, evs) := parseLoop f buffer slots st in
    st_origin st1 = st_origin st /\
    Forall (fun e => ev_type e <> [] /\ ev_origin e = st_origin st) evs.
Proof.
  induction f as [|f IH]; intros slots st; cbn [parseLoop]; [now split|].
  destruct (LINE_exec buffer (st_pos st)) as [[l p']|]; [|now split].
  pose proof (parseLine_events slots (set_pos st p') l) as P.
  destruct (parseLine slots (set_pos st p') l) as [[s' st'] evs].
  specialize (IH s' st').
  destruct (parseLoop f buffer s' st') as [[s1 st1] e1].
  cbn [st_origin set_pos] in P. destruct P as [P1 P2], IH as [I1 I2].
  split; [congruence|]. apply Forall_app. split; [exact P2|].
  rewrite P1 in I2. exact I2.
Qed.

(** X6. Every event that [parseStream] queues has a type that is not
    empty and the origin recorded in the parsing state, which the parser
    itself never changes. *)
Theorem parsed_events_typed (slots : Slots) (st : ParsingState)
        (buffer : jsstring) :
  let '(_, st1, evs) := parseStream slots st buffer in
  st_origin st1 = st_origin st /\
  Forall (fun e => ev_type e <> [] /\ ev_origin e = st_origin st) evs.
Proof. apply parseLoop_events. Qed.

(** X7. Of the slots, [parseStream] writes [reconnectionTime] and
    [lastEventId] only: [readyState], the request, the backoff
    accumulator, the URL and the credentials flag come out as they went
    in, whatever the buffer. *)
Theorem parser_leaves_connection (slots : Slots) (st : ParsingState)
        (buffer : jsstring) :
  let slots' := fst (fst (parseStream slots st buffer)) in
  readyState slots' = readyState slots /\
  request slots' = request slots /\
  additionalReconnectionTime slots' = additionalReconnectionTime slots /\
  url slots' = url slots /\
  withCredentials slots' = withCredentials slots.
Proof.
  destruct (parseStream_same slots st buffer) as (U & R & C & S & A).
  cbv zeta. now repeat split.
Qed.

(** * Further properties of the connection manager *)

(** ** What survives a reconnection *)

Lemma same_resumption_refl (w : World) : same_resumption w w.
Proof. now split. Qed.

Lemma same_resumption_trans (a b c : World) :
  same_resumption a b -> same_resumption b c -> same_resumption a c.
Proof. unfold same_resumption. intros [? ?] [? ?]. split; congruence. Qed.

Lemma same_identity_refl (w : World) : same_identity w w.
Proof. now split. Qed.

Lemma same_identity_trans (a b c : World) :
  same_identity a b -> same_identity b c -> same_identity a c.
Proof. unfold same_identity. intros [? ?] [? ?]. split; congruence. Qed.

Lemma settle_kept (w : World) (r : nat) :
  same_resumption w (settle w r) /\ same_identity w (settle w r).
Proof.
  unfold settle. destruct (nth_error (requests w) r); now repeat split.
Qed.

Lemma createConnection_kept (w : World) :
  same_resumption w (createConnection w) /\
  same_identity w (createConnection w).
Proof. unfold createConnection. destruct (onLine w); now repeat split. Qed.

Lemma onabort_kept (w : World) :
  same_resumption w (onabort w) /\ same_identity w (onabort w).
Proof.
  unfold onabort. destruct (negb _); [|now repeat split].
  split;
    [eapply same_resumption_trans; [|apply createConnection_kept]
    |eapply same_identity_trans; [|apply createConnection_kept]];
    now split.
Qed.

Lemma request_abort_kept (w : World) (r : nat) :
  same_resumption w (request_abort w r) /\
  same_identity w (request_abort w r).
Proof.
  unfold request_abort. destruct (nth_error (requests w) r) as [q|];
    [|now repeat split].
  destruct (inflight q); [|now repeat split].
  destruct (settle_kept w r) as [A B].
  destruct (onabort_kept (settle w r)) as [C D].
  split; [eapply same_resumption_trans|eapply same_identity_trans];
    eassumption.
Qed.

Lemma close_kept (w : World) :
  same_resumption w (close w) /\ same_identity w (close w).
Proof.
  unfold close. destruct (request (slots w)) as [r|]; [|now repeat split].
  split;
    [eapply same_resumption_trans; [|apply request_abort_kept]
    |eapply same_identity_trans; [|apply request_abort_kept]];
    now split.
Qed.

Lemma run_task_kept (w : World) (t : Task) :
  same_resumption w (run_task w t) /\ same_identity w (run_task w t).
Proof.
  unfold run_task.
  destruct t; destruct (readyState (slots w));
    cbn [ReadyState_eqb negb]; try (now repeat split);
    try apply createConnection_kept;
    (split;
     [eapply same_resumption_trans; [apply close_kept|]
     |eapply same_identity_trans; [apply close_kept|]]; now split).
Qed.

Lemma online_listeners_kept (n : nat) (w : World) :
  same_resumption w (Nat.iter n online_listener w) /\
  same_identity w (Nat.iter n online_listener w).
Proof.
  induction n as [|n [IH1 IH2]]; [now repeat split|].
  change (Nat.iter (S n) online_listener w)
    with (online_listener (Nat.iter n online_listener w)).
  unfold online_listener at 1 3. destruct (negb _); [|now split].
  destruct (createConnection_kept (Nat.iter n online_listener w)) as [A B].
  split; [eapply same_resumption_trans|eapply same_identity_trans];
    eassumption.
Qed.

Lemma progress_chunk_identity (w : World) (r status : nat)
      (ct : option jsstring) (u : option URL) (text : jsstring) :
  same_identity w (fst (progress_chunk w r status ct u text)).
Proof.
  unfold progress_chunk.
  destruct (nth_error (requests w) r) as [q|]; [|now split].
  destruct (ReadyState_eqb (readyState (slots w)) CLOSED || (status =? 0));
    [now split|].
  destruct (first q); [destruct (valid_response status ct)|];
    cbv beta iota zeta; cbn [negb];
    try match goal with
        | |- context [parseStream ?s ?st ?b] =>
            pose proof (parseStream_same s st b) as H;
            destruct (parseStream s st b) as [[s1 st1] evs];
            destruct H as (H1 & _ & H2 & _)
        end; now split.
Qed.

(** X8. The resumption id and the reconnection time belong to the
    [EventSource], not to a response: only a progress event (through the
    parser) can change them; closing, failing, reconnecting, aborting and
    every other step leave both as they are.  The URL and the credentials
    flag are never changed by any step. *)
Theorem resumption_state_persists :
  (forall (w : World) (e : Event),
      is_progress e = false -> same_resumption w (step w e)) /\
  (forall (w : World) (e : Event), same_identity w (step w e)).
Proof.
  split.
  - intros w e H. destruct e; try discriminate H; cbn [step].
    + apply close_kept.
    + destruct (settle_kept w r) as [A _].
      eapply same_resumption_trans; [exact A|].
      unfold onload. destruct (nth_error (requests (settle w r)) r);
        [|now split].
      destruct (_ || _); [now split|].
      destruct (status =? 200); destruct ((status =? 204) && first r0);
        now split.
    + destruct (nth_error (requests w) r); [|now split].
      destruct (settle_kept w r) as [A _].
      eapply same_resumption_trans; [exact A|].
      unfold onerror. destruct (negb _); now split.
    + destruct (nth_error (requests w) r); [|now split].
      destruct (settle_kept w r) as [A _].
      eapply same_resumption_trans; [exact A|apply onabort_kept].
    + destruct (tasks w) as [|t ts]; [now split|].
      apply (run_task_kept (set_tasks w ts) t).
    + destruct (nth_error (timers w) i); now split.
    + now split.
    + apply (online_listeners_kept (listeners w) (set_listeners w 0)).
    + unfold setReconnectionTimeIncreasingRate.
      destruct (Qle_bool value 1); now split.
    + unfold setMaxBufferSize. destruct (Qle_bool value 0); now split.
  - intros w e. destruct e; cbn [step].
    + apply close_kept.
    + unfold onprogress.
      pose proof (progress_chunk_identity w r status contentType responseURL
                                          responseText) as P.
      destruct (progress_chunk w r status contentType responseURL
                               responseText) as [w1 parsed].
      cbn [fst] in P. destruct (parsed && _); [|exact P].
      eapply same_identity_trans; [exact P|apply request_abort_kept].
    + destruct (settle_kept w r) as [_ A].
      eapply same_identity_trans; [exact A|].
      unfold onload. destruct (nth_error (requests (settle w r)) r);
        [|now split].
      destruct (_ || _); [now split|].
      destruct (status =? 200); destruct ((status =? 204) && first r0);
        now split.
    + destruct (nth_error (requests w) r); [|now split].
      destruct (settle_kept w r) as [_ A].
      eapply same_identity_trans; [exact A|].
      unfold onerror. destruct (negb _); now split.
    + destruct (nth_error (requests w) r); [|now split].
      destruct (settle_kept w r) as [_ A].
      eapply same_identity_trans; [exact A|apply onabort_kept].
    + destruct (tasks w) as [|t ts]; [now split|].
      apply (run_task_kept (set_tasks w ts) t).
    + destruct (nth_error (timers w) i); now split.
    + now split.
    + apply (online_listeners_kept (listeners w) (set_listeners w 0)).
    + unfold setReconnectionTimeIncreasingRate.
      destruct (Qle_bool value 1); now split.
    + unfold setMaxBufferSize. destruct (Qle_bool value 0); now split.
Qed.

Lemma resumption_state_persists_witness :
  let w := run example_world
             [EProgress 0 200 example_contentType None
                        (str "id: 7" ++ [LF] ++ str "retry: 450" ++
                         [LF; LF])] in
  is_progress (ELoad 0 200) = false /\
  lastEventId (slots w) = str "7" /\
  same_resumption w (step w (ELoad 0 200)).
Proof.
  cbv zeta. split; [reflexivity|]. split; [reflexivity|].
  apply (proj1 resumption_state_persists). reflexivity.
Defined.

(** ** Closing *)

Lemma close_request_none (w : World) : request (slots (close w)) = None.
Proof.
  unfold close. destruct (request (slots w)) as [r|]; [|reflexivity].
  unfold request_abort. cbn [requests set_slots].
  destruct (nth_error (requests w) r) as [q|]; [|reflexivity].
  destruct (inflight q); [|reflexivity].
  rewrite onabort_closed by now rewrite settle_slots.
  now rewrite settle_slots.
Qed.

Lemma close_when_closed (w : World) :
  readyState (slots w) = CLOSED -> request (slots w) = None -> close w = w.
Proof.
  destruct w as [a b c s rs ts tm ls dl].
  destruct s as [u rq rt lid wc rdy art]. cbn. intros -> ->. reflexivity.
Qed.

(** X10. [close()] is idempotent: a second call changes nothing at all;
    and the first leaves [readyState] CLOSED and no current request. *)
Theorem close_idempotent (w : World) :
  close (close w) = close w /\
  readyState (slots (close w)) = CLOSED /\
  request (slots (close w)) = None.
Proof.
  destruct (close_closed w) as [C _].
  pose proof (close_request_none w) as R.
  split; [now apply close_when_closed|now split].
Qed.

(** X11. After [close()] no request is ever made again: no timer, queued
    closure, "online" event or late transport callback starts one. *)
Theorem no_request_after_close (w : World) (es : list Event) :
  length (requests (run (step w EClose) es)) = length (requests w).
Proof.
  cbn [step]. destruct (close_closed w) as [C _].
  destruct (closed_run es (close w) C) as (_ & _ & ->).
  apply close_requests_length.
Qed.

(** ** The "online" listener *)

Lemma createConnection_offline (w : World) :
  onLine w = false ->
  createConnection w = set_listeners w (S (listeners w)).
Proof. intros H. unfold createConnection. now rewrite H. Qed.

Lemma online_listeners_offline (n : nat) (w : World) :
  onLine w = false -> readyState (slots w) <> CLOSED ->
  Nat.iter n online_listener w = set_listeners w (n + listeners w).
Proof.
  intros H O. induction n as [|n IH].
  - now destruct w.
  - change (Nat.iter (S n) online_listener w)
      with (online_listener (Nat.iter n online_listener w)).
    rewrite IH. unfold online_listener. cbn [slots set_listeners].
    replace (ReadyState_eqb (readyState (slots w)) CLOSED) with false
      by (destruct (readyState (slots w)); reflexivity || congruence).
    cbn [negb]. rewrite createConnection_offline by exact H. reflexivity.
Qed.

Lemma online_listeners_online (n : nat) (w : World) :
  onLine w = true -> readyState (slots w) <> CLOSED ->
  let w' := Nat.iter n online_listener w in
  length (requests w') = length (requests w) + n /\
  listeners w' = listeners w /\ onLine w' = true /\
  readyState (slots w') = readyState (slots w) /\
  (0 < n -> request (slots w') = Some (length (requests w) + n - 1)).
Proof.
  intros H O. induction n as [|n IH]; cbv zeta.
  - change (Nat.iter 0 online_listener w) with w.
    split; [lia|]. split; [reflexivity|].
    split; [exact H|]. split; [reflexivity|]. intros F. lia.
  - change (Nat.iter (S n) online_listener w)
      with (online_listener (Nat.iter n online_listener w)).
    cbv zeta in IH. set (wn := Nat.iter n online_listener w) in *.
    destruct IH as (L & Li & On & R & _).
    unfold online_listener. rewrite R.
    replace (ReadyState_eqb (readyState (slots w)) CLOSED) with false
      by (destruct (readyState (slots w)); reflexivity || congruence).
    cbn [negb]. unfold createConnection. rewrite On. cbn.
    rewrite length_app, L. cbn. repeat split; try lia; try assumption.
    intros _. f_equal. lia.
Qed.

(** X14. The "online" event runs every listener that [createConnection]
    registered while offline, once.  If the browser is online and the
    connection not CLOSED, each starts one request and none stays
    registered; if [close()] came first, no request is made; if the
    browser is still offline, each listener registers again and no
    request is made. *)
Theorem online_event (w : World) :
  let w' := step w EOnline in
  (readyState (slots w) = CLOSED ->
   requests w' = requests w /\ listeners w' = 0) /\
  (readyState (slots w) <> CLOSED -> onLine w = true ->
   length (requests w') = length (requests w) + listeners w /\
   listeners w' = 0) /\
  (readyState (slots w) <> CLOSED -> onLine w = false ->
   requests w' = requests w /\ listeners w' = listeners w).
Proof.
  cbv zeta. cbn [step]. split; [|split].
  - intros C. rewrite online_listeners_closed by exact C. now split.
  - intros O H.
    destruct (online_listeners_online (listeners w) (set_listeners w 0) H O)
      as (L & Li & _).
    split; [exact L|exact Li].
  - intros O H. rewrite online_listeners_offline by assumption.
    cbn. split; [reflexivity|lia].
Qed.

Lemma online_event_witness :
  let w := init 4000%Q (3 # 2)%Q 65536%Q false example_url false in
  listeners w = 1 /\ requests w = [] /\
  readyState (slots w) <> CLOSED /\ onLine (set_onLine w true) = true /\
  length (requests (step (set_onLine w true) EOnline)) = 1 /\
  listeners (step (set_onLine w true) EOnline) = 0.
Proof.
  cbv zeta. split; [reflexivity|]. split; [reflexivity|].
  assert (O : readyState
                (slots (set_onLine
                          (init 4000%Q (3 # 2)%Q 65536%Q false example_url
                                false) true)) <> CLOSED) by discriminate.
  split; [exact O|]. split; [reflexivity|].
  exact (proj1 (proj2 (online_event
                         (set_onLine
                            (init 4000%Q (3 # 2)%Q 65536%Q false example_url
                                  false) true))) O eq_refl).
Defined.

(** ** Losing the connection *)




(** ** Opening *)

Lemma run_messages (r : nat) (evs : list MessageEvent) :
  forall (w : World) (rest : list Task),
    readyState (slots w) <> CLOSED ->
    tasks w = List.map (TMessage r) evs ++ rest ->
    let w' := run w (repeat ERunTask (length evs)) in
    delivered w' = delivered w ++ List.map (NMessage r) evs /\
    tasks w' = rest /\ slots w' = slots w /\ requests w' = requests w /\
    timers w' = timers w.
Proof.
  induction evs as [|e evs IH]; intros w rest O T; cbv zeta.
  - cbn. rewrite app_nil_r. now repeat split.
  - cbn [length repeat]. unfold run. cbn [fold_left step].
    rewrite T. cbn [List.map app run_task slots set_tasks].
    replace (ReadyState_eqb (readyState (slots w)) CLOSED) with false
      by (destruct (readyState (slots w)); reflexivity || congruence).
    cbn [negb].
    destruct (IH (dispatchEvent (set_tasks w (List.map (TMessage r) evs
                                              ++ rest))
                                (NMessage r e)) rest O eq_refl)
      as (D & T' & S & R & Ti).
    unfold run in D, T', S, R, Ti. rewrite D, T', S, R, Ti.
    cbn. rewrite <- app_assoc. now repeat split.
Qed.

Lemma parsed_true_and_exceeded (w1 : World) (text : jsstring) (r : nat) :
  (if true && buffer_exceeded w1 text then request_abort w1 r else w1) = w1 \/
  (if true && buffer_exceeded w1 text then request_abort w1 r else w1) =
  request_abort w1 r.
Proof. destruct (buffer_exceeded w1 text); auto. Qed.

Lemma first_valid_chunk (w : World) (r status : nat) (q : Request)
      (ct : option jsstring) (u : option URL) (text : jsstring) :
  nth_error (requests w) r = Some q -> first q = true ->
  readyState (slots w) <> CLOSED ->
  valid_response status ct = true ->
  let w1 := step w (EProgress r status ct u text) in
  tasks w1 =
    tasks w ++ TAnnounce ::
    List.map (TMessage r) (first_chunk_events w q u text) /\
  delivered w1 = delivered w /\
  readyState (slots w1) = readyState (slots w) /\
  additionalReconnectionTime (slots w1) = 0%Q.
Proof.
  intros Q F O V. cbv zeta. cbn [step]. unfold onprogress.
  assert (Z : (status =? 0) = false).
  { unfold valid_response in V. apply andb_prop in V as [V _].
    apply Nat.eqb_eq in V. now subst status. }
  assert (P : exists w1,
             progress_chunk w r status ct u text = (w1, true) /\
             tasks w1 = tasks w ++ TAnnounce ::
               List.map (TMessage r) (first_chunk_events w q u text) /\
             delivered w1 = delivered w /\
             readyState (slots w1) = readyState (slots w) /\
             additionalReconnectionTime (slots w1) = 0%Q).
  { unfold progress_chunk. rewrite Q, F, V, Z.
    replace (ReadyState_eqb (readyState (slots w)) CLOSED) with false
      by (destruct (readyState (slots w)); reflexivity || congruence).
    cbv beta iota zeta. cbn [orb negb].
    unfold first_chunk_events, response_origin.
    cbn [slots announceConnection queue set_tasks set_slots set_requests
         state set_state set_first tasks].
    match goal with
    | |- context [parseStream ?s ?st ?b] =>
        pose proof (parseStream_same s st b) as H;
        destruct (parseStream s st b) as [[s1 st1] evs]
    end.
    destruct H as (_ & _ & _ & H1 & H2). cbn in H1, H2.
    eexists. split; [reflexivity|]. cbn.
    rewrite <- app_assoc. now repeat split. }
  destruct P as (w1 & -> & T & D & R & A).
  destruct (parsed_true_and_exceeded w1 text r) as [-> | ->];
    [now repeat split|].
  destruct (request_abort_silent w1 r) as ((R' & D') & T' & _ & A').
  repeat split; congruence.
Qed.

(** X15. The first chunk of a valid response (status 200 and a content
    type that starts with text/event-stream, in any letter case), on a
    connection with an empty queue: once the queued closures have run,
    [readyState] is OPEN and the consumer has received "open" and then
    the events of the chunk, in the order of the stream; the backoff
    accumulator is 0. *)
Theorem first_chunk_opens_then_delivers (w : World) (r status : nat)
        (q : Request) (ct : option jsstring) (u : option URL)
        (text : jsstring) :
  nth_error (requests w) r = Some q -> first q = true ->
  readyState (slots w) <> CLOSED -> tasks w = [] ->
  valid_response status ct = true ->
  let evs := first_chunk_events w q u text in
  let w' := run w (EProgress r status ct u text ::
                   repeat ERunTask (S (length evs))) in
  delivered w' = delivered w ++ NOpen :: List.map (NMessage r) evs /\
  readyState (slots w') = OPEN /\ tasks w' = [] /\
  additionalReconnectionTime (slots w') = 0%Q.
Proof.
  intros Q F O T V evs w'.
  destruct (first_valid_chunk w r status q ct u text Q F O V)
    as (T1 & D1 & R1 & A1).
  fold evs in T1. rewrite T in T1. cbn [app] in T1.
  subst w'. unfold run. cbn [fold_left repeat].
  set (w1 := step w (EProgress r status ct u text)) in *.
  clearbody w1. cbn [step]. rewrite T1. cbn [run_task slots set_tasks].
  replace (ReadyState_eqb (readyState (slots w1)) CLOSED) with false
    by (rewrite R1; destruct (readyState (slots w)); reflexivity || congruence).
  cbn [negb].
  match goal with
  | |- context [fold_left step _ ?w0] =>
      destruct (run_messages r evs w0 [] ltac:(discriminate)
                  ltac:(cbn; now rewrite app_nil_r))
        as (D & T' & S & _)
  end.
  unfold run in D, T', S. rewrite D, T', S. cbn.
  rewrite D1, <- app_assoc. now repeat split.
Qed.

Lemma first_chunk_opens_then_delivers_witness :
  nth_error (requests example_world) 0 = Some (new_request []) /\
  readyState (slots example_world) <> CLOSED /\
  tasks example_world = [] /\
  valid_response 200 (Some (str "Text/Event-Stream; charset=utf-8")) = true /\
  delivered
    (run example_world
       [EProgress 0 200 (Some (str "Text/Event-Stream; charset=utf-8")) None
                  plain_stream; ERunTask; ERunTask]) =
  [NOpen;
   NMessage 0 (mkMessageEvent (str "message") (str "x")
                              (str "http://localhost") [])].
Proof.
  assert (O : readyState (slots example_world) <> CLOSED) by discriminate.
  repeat (split; [reflexivity || exact O|]).
  exact (proj1 (first_chunk_opens_then_delivers example_world 0 200
                  (new_request [])
                  (Some (str "Text/Event-Stream; charset=utf-8")) None
                  plain_stream eq_refl eq_refl O eq_refl eq_refl)).
Defined.

(** ** New requests *)












(** ** Numbers in range *)






















(** ** One connection at a time *)

Lemma in_flight_app (rs : list Request) (q : Request) :
  in_flight (rs ++ [q]) = in_flight rs + (if inflight q then 1 else 0).
Proof.
  unfold in_flight. rewrite filter_app, length_app. cbn.
  now destruct (inflight q).
Qed.

Lemma in_flight_update_same (rs : list Request) (r : nat) (q q' : Request) :
  nth_error rs r = Some q -> inflight q' = inflight q ->
  in_flight (update_request rs r q') = in_flight rs.
Proof.
  unfold in_flight. revert r; induction rs as [|x rs IH]; intros [|r] Q E;
    cbn in *; try discriminate.
  - injection Q as ->. rewrite E. now destruct (inflight q).
  - specialize (IH r Q E). destruct (inflight x); cbn; now rewrite IH.
Qed.

Lemma in_flight_update_settle (rs : list Request) (r : nat)
      (q q' : Request) :
  nth_error rs r = Some q -> inflight q = true -> inflight q' = false ->
  S (in_flight (update_request rs r q')) = in_flight rs.
Proof.
  unfold in_flight. revert r; induction rs as [|x rs IH]; intros [|r] Q E F;
    cbn in *; try discriminate.
  - injection Q as ->. now rewrite E, F.
  - specialize (IH r Q E F). destruct (inflight x); cbn; now rewrite <- IH.
Qed.

Lemma in_flight_none (rs : list Request) (r : nat) (q : Request) :
  in_flight rs = 0 -> nth_error rs r = Some q -> inflight q = false.
Proof.
  unfold in_flight. revert r; induction rs as [|x rs IH]; intros [|r] Z Q;
    cbn in *; try discriminate.
  - injection Q as ->. now destruct (inflight q).
  - destruct (inflight x); [discriminate|]. now apply IH with r.
Qed.

Lemma in_flight_some (rs : list Request) (r : nat) (q : Request) :
  nth_error rs r = Some q -> inflight q = true -> 0 < in_flight rs.
Proof.
  intros Q E. destruct (in_flight rs) eqn:Z; [|lia].
  rewrite (in_flight_none rs r q Z Q) in E. discriminate.
Qed.

Lemma reconnects_app (ts ts' : list Task) :
  reconnects (ts ++ ts') = reconnects ts + reconnects ts'.
Proof. unfold reconnects. now rewrite filter_app, length_app. Qed.

Lemma reconnects_messages (r : nat) (evs : list MessageEvent) :
  reconnects (List.map (TMessage r) evs) = 0.
Proof. induction evs; auto. Qed.

Lemma remove_nth_length {A} (l : list A) (i : nat) (x : A) :
  nth_error l i = Some x -> S (length (remove_nth l i)) = length l.
Proof.
  revert i; induction l as [|y l IH]; intros [|i] H; cbn in *;
    try discriminate; auto.
Qed.

(** The effect of the building blocks on what is pending. *)

Lemma settle_in_flight (w : World) (r : nat) (q : Request) :
  nth_error (requests w) r = Some q -> inflight q = true ->
  S (in_flight (requests (settle w r))) = in_flight (requests w).
Proof.
  intros Q E. unfold settle. rewrite Q. cbn.
  now apply in_flight_update_settle with q.
Qed.

Lemma settle_rest (w : World) (r : nat) :
  listeners (settle w r) = listeners w /\
  timers (settle w r) = timers w /\ tasks (settle w r) = tasks w /\
  onLine (settle w r) = onLine w.
Proof.
  unfold settle. destruct (nth_error (requests w) r); now repeat split.
Qed.

Lemma settle_pending (w : World) (r : nat) (q : Request) :
  nth_error (requests w) r = Some q -> inflight q = true ->
  pending w <= 1 ->
  pending (settle w r) = 0.
Proof.
  intros Q E P. pose proof (settle_in_flight w r q Q E) as I.
  destruct (settle_rest w r) as (L & T & K & _).
  unfold pending in *. rewrite L, T, K. lia.
Qed.

(** [createConnection] adds one to what is pending; from a state with
    nothing in flight it leaves a state where [slots.request] is the
    request in flight, if any. *)
Lemma createConnection_single (w : World) :
  pending w = 0 -> single (createConnection w).
Proof.
  intros P. unfold single, createConnection, pending, current in *.
  destruct (onLine w); cbn.
  - rewrite in_flight_app. cbn. split; [lia|]. right.
    exists (length (requests w)), (mkRequest (mkState [] [] [] None 0) true
                                             true
                                             (if JS.eqb (lastEventId (slots w)) []
                                              then None
                                              else Some (lastEventId (slots w)))).
    split; [reflexivity|]. split; [|reflexivity].
    now rewrite nth_error_app2, Nat.sub_diag by lia.
  - split; [lia|]. left. lia.
Qed.

Lemma idle_single (w : World) : pending w = 0 -> single w.
Proof. intros P. unfold single, current, pending in *. split; [lia|left; lia]. Qed.

Lemma onabort_single (w : World) : pending w = 0 -> single (onabort w).
Proof.
  intros P. unfold onabort. destruct (negb _); [|now apply idle_single].
  now apply createConnection_single.
Qed.

Lemma in_flight_unique (rs : list Request) (r r' : nat) (q q' : Request) :
  in_flight rs <= 1 ->
  nth_error rs r = Some q -> inflight q = true ->
  nth_error rs r' = Some q' -> inflight q' = true -> r = r'.
Proof.
  revert r r'; induction rs as [|x rs IH]; intros [|r] [|r'] L Q E Q' E';
    cbn in *; try discriminate; auto.
  - injection Q as ->. unfold in_flight in L. cbn in L. rewrite E in L.
    cbn in L. assert (Z : in_flight rs = 0) by (unfold in_flight; lia).
    rewrite (in_flight_none rs r' q' Z Q') in E'. discriminate.
  - injection Q' as ->. unfold in_flight in L. cbn in L. rewrite E' in L.
    cbn in L. assert (Z : in_flight rs = 0) by (unfold in_flight; lia).
    rewrite (in_flight_none rs r q Z Q) in E. discriminate.
  - f_equal. apply IH; auto. unfold in_flight in *. cbn in L.
    destruct (inflight x); cbn in L; lia.
Qed.

(** In a state with one connection, a request in flight is
    [slots.request], and nothing else is pending. *)
Lemma single_in_flight (w : World) (r : nat) (q : Request) :
  single w -> nth_error (requests w) r = Some q -> inflight q = true ->
  request (slots w) = Some r /\ in_flight (requests w) = 1 /\
  listeners w = 0 /\ timers w = [] /\ reconnects (tasks w) = 0.
Proof.
  intros [P C] Q E. pose proof (in_flight_some _ _ _ Q E) as I.
  unfold pending in P. split.
  - destruct C as [Z|(r0 & q0 & R & Q0 & E0)]; [lia|].
    rewrite R. f_equal.
    apply (in_flight_unique (requests w) r0 r q0 q); auto. lia.
  - repeat split; try lia. destruct (timers w); [reflexivity|cbn in P; lia].
Qed.

Lemma close_single (w : World) :
  single w -> pending (close w) <= 1 /\ in_flight (requests (close w)) = 0.
Proof.
  intros Sg. pose proof Sg as [P C]. unfold close.
  destruct (request (slots w)) as [r|] eqn:R.
  - unfold request_abort. cbn [requests set_slots].
    destruct (nth_error (requests w) r) as [q|] eqn:Q;
      [destruct (inflight q) eqn:E|].
    + rewrite onabort_closed by now rewrite settle_slots.
      set (w' := set_slots _ _).
      assert (P' : pending (settle w' r) = 0)
        by (apply settle_pending with q; auto).
      split; [lia|]. unfold pending in P'. lia.
    + destruct C as [Z|(r0 & q0 & R0 & Q0 & E0)].
      * unfold pending in *. cbn. lia.
      * rewrite R in R0. injection R0 as <-. congruence.
    + destruct C as [Z|(r0 & q0 & R0 & Q0 & E0)].
      * unfold pending in *. cbn. lia.
      * rewrite R in R0. injection R0 as <-. congruence.
  - destruct C as [Z|(r0 & q0 & R0 & Q0 & E0)]; [|congruence].
    unfold pending in *. cbn. lia.
Qed.

Lemma close_keeps_single (w : World) : single w -> single (close w).
Proof.
  intros Sg. destruct (close_single w Sg) as [P Z].
  split; [exact P|now left].
Qed.

Lemma progress_chunk_pending (w : World) (r status : nat) (q : Request)
      (ct : option jsstring) (u : option URL) (text : jsstring) :
  nth_error (requests w) r = Some q -> inflight q = true ->
  let w1 := fst (progress_chunk w r status ct u text) in
  in_flight (requests w1) = in_flight (requests w) /\
  listeners w1 = listeners w /\ timers w1 = timers w /\
  reconnects (tasks w1) = reconnects (tasks w) /\
  request (slots w1) = request (slots w) /\
  exists q1, nth_error (requests w1) r = Some q1 /\ inflight q1 = true.
Proof.
  intros Q E. unfold progress_chunk. rewrite Q.
  destruct (ReadyState_eqb (readyState (slots w)) CLOSED || (status =? 0));
    [cbn; repeat split; eauto|].
  destruct (first q) eqn:F; [destruct (valid_response status ct)|];
    cbv beta iota zeta; cbn [negb];
    try match goal with
        | |- context [parseStream ?s ?st ?b] =>
            pose proof (parseStream_same s st b) as H;
            destruct (parseStream s st b) as [[s1 st1] evs];
            destruct H as (_ & Hr & _)
        end; cbn in *.
  - rewrite reconnects_app, reconnects_app, reconnects_messages.
    erewrite in_flight_update_same;
      [|eapply nth_error_update_same; eassumption|reflexivity].
    erewrite in_flight_update_same; [|eassumption|reflexivity].
    repeat split; auto; try (unfold reconnects; cbn; lia).
    eexists. split; [eapply nth_error_update_same|exact E].
    eapply nth_error_update_same; eassumption.
  - rewrite reconnects_app.
    erewrite in_flight_update_same; [|eassumption|reflexivity].
    repeat split; auto; try (unfold reconnects; cbn; lia).
    eexists. split; [eapply nth_error_update_same; eassumption|exact E].
  - rewrite reconnects_app, reconnects_messages.
    erewrite in_flight_update_same; [|eassumption|reflexivity].
    repeat split; auto; try (unfold reconnects; cbn; lia).
    eexists. split; [eapply nth_error_update_same; eassumption|exact E].
Qed.

Lemma reestablishConnection_pending (w : World) :
  pending (reestablishConnection w) = S (pending w) /\
  requests (reestablishConnection w) = requests w.
Proof.
  unfold reestablishConnection, queue, pending. cbn.
  rewrite length_app, reconnects_app. unfold reconnects at 2. cbn.
  split; [lia|reflexivity].
Qed.

Lemma onload_single (w : World) (r status : nat) :
  pending w = 0 -> single (onload w r status).
Proof.
  intros P. unfold onload.
  destruct (nth_error (requests w) r) as [q|]; [|now apply idle_single].
  destruct (_ || _); [now apply idle_single|].
  set (w1 := set_slots w _).
  assert (P1 : pending w1 = 0) by exact P.
  assert (I1 : in_flight (requests w1) = 0) by (unfold pending in P1; lia).
  clearbody w1.
  assert (S2 : pending (if status =? 200 then reestablishConnection w1
                        else w1) <= 1 /\
               in_flight (requests (if status =? 200
                                    then reestablishConnection w1
                                    else w1)) = 0).
  { destruct (status =? 200); [|lia].
    destruct (reestablishConnection_pending w1) as [-> ->]. lia. }
  destruct S2 as [P2 I2].
  destruct ((status =? 204) && first q).
  - unfold failConnection, queue, single, current, pending in *. cbn.
    rewrite reconnects_app. unfold reconnects at 2. cbn.
    split; [lia|left; exact I2].
  - split; [exact P2|left; exact I2].
Qed.

Lemma onerror_single (w : World) : pending w = 0 -> single (onerror w).
Proof.
  intros P. unfold onerror. destruct (negb _); [|now apply idle_single].
  set (w1 := set_slots w _).
  assert (P1 : pending w1 = 0) by exact P.
  destruct (reestablishConnection_pending w1) as [P2 R2].
  split; [lia|]. left. rewrite R2. unfold pending in P1. lia.
Qed.

Lemma run_task_single (w : World) (t : Task) (ts : list Task) :
  single w -> tasks w = t :: ts -> single (run_task (set_tasks w ts) t).
Proof.
  intros Sg T. pose proof Sg as [P C].
  assert (PT : pending (set_tasks w ts) +
               (if is_reconnect t then 1 else 0) = pending w).
  { unfold pending. cbn. rewrite T. unfold reconnects. cbn.
    destruct (is_reconnect t); cbn; lia. }
  assert (Keep : is_reconnect t = false -> single (set_tasks w ts)).
  { intros N. rewrite N in PT. split; [lia|exact C]. }
  destruct t; cbn [run_task is_reconnect] in *.
  - destruct (negb _); [|auto].
    destruct (Keep eq_refl) as [P1 C1]. split; [exact P1|exact C1].
  - destruct (negb _); [|auto].
    destruct (Keep eq_refl) as [P1 C1]. split; [exact P1|exact C1].
  - destruct (ReadyState_eqb _ CONNECTING).
    + apply createConnection_single. lia.
    + apply idle_single. lia.
  - destruct (negb _); [|auto].
    destruct (close_keeps_single _ (Keep eq_refl)) as [P1 C1].
    split; [exact P1|exact C1].
  - destruct (negb _); [|auto].
    destruct (Keep eq_refl) as [P1 C1]. split; [exact P1|exact C1].
Qed.

(** Every step of a well-behaved transport keeps the connection single. *)
Lemma step_single (w : World) (e : Event) :
  single w -> transport_ok w e = true -> single (step w e).
Proof.
  intros Sg Ok. pose proof Sg as [P C].
  destruct e as [|r status ct u text|r status|r|r| |i|b| |v|v];
    cbn [step transport_ok] in *.
  - now apply close_keeps_single.
  - destruct (nth_error (requests w) r) as [q|] eqn:Q; [|discriminate].
    destruct (single_in_flight w r q Sg Q Ok) as (R & I & L & T & K).
    destruct (progress_chunk_pending w r status q ct u text Q Ok)
      as (I1 & L1 & T1 & K1 & R1 & q1 & Q1 & E1).
    unfold onprogress.
    destruct (progress_chunk w r status ct u text) as [w1 parsed] eqn:PC.
    cbn [fst] in *.
    assert (S1 : single w1).
    { split.
      - unfold pending in *. rewrite I1, L1, T1, K1. exact P.
      - right. exists r, q1. rewrite R1. auto. }
    destruct (parsed && buffer_exceeded w1 text); [|exact S1].
    unfold request_abort. rewrite Q1, E1.
    apply onabort_single. apply settle_pending with q1; auto.
    apply S1.
  - destruct (nth_error (requests w) r) as [q|] eqn:Q; [|discriminate].
    apply onload_single. now apply settle_pending with q.
  - destruct (nth_error (requests w) r) as [q|] eqn:Q; [|discriminate].
    apply onerror_single. now apply settle_pending with q.
  - destruct (nth_error (requests w) r) as [q|] eqn:Q; [|discriminate].
    apply onabort_single. now apply settle_pending with q.
  - destruct (tasks w) as [|t ts] eqn:T; [exact Sg|].
    now apply run_task_single.
  - destruct (nth_error (timers w) i) as [d|] eqn:T; [|exact Sg].
    pose proof (remove_nth_length _ _ _ T) as Len.
    split.
    + unfold pending, queue in *. cbn. rewrite reconnects_app.
      unfold reconnects at 2. cbn. lia.
    + exact C.
  - split; [exact P|exact C].
  - destruct (listeners w) as [|[|n]] eqn:L.
    + cbn. split; [|exact C]. unfold pending in *. cbn. lia.
    + cbn. unfold online_listener.
      assert (P0 : pending (set_listeners w 0) = 0)
        by (unfold pending in *; cbn; lia).
      destruct (negb _); [now apply createConnection_single|].
      now apply idle_single.
    + unfold pending in P. lia.
  - unfold setReconnectionTimeIncreasingRate.
    destruct (Qle_bool v 1); [exact Sg|]. split; [exact P|exact C].
  - unfold setMaxBufferSize.
    destruct (Qle_bool v 0); [exact Sg|]. split; [exact P|exact C].
Qed.

Lemma run_single (w : World) (es : list Event) :
  single w -> well_behaved w es = true -> single (run w es).
Proof.
  revert w; induction es as [|e es IH]; intros w Sg WB; [exact Sg|].
  cbn in WB. apply andb_prop in WB as [Ok WB].
  cbn. apply IH; [now apply step_single|exact WB].
Qed.

Lemma init_single (d rate maxBuffer : Q) (online : bool) (u : URL)
      (credentials : bool) :
  single (init d rate maxBuffer online u credentials).
Proof. unfold init. now apply createConnection_single. Qed.

(** Once closed, no step puts a request in flight. *)
Lemma settle_in_flight_le (w : World) (r : nat) :
  in_flight (requests (settle w r)) <= in_flight (requests w).
Proof.
  unfold settle. destruct (nth_error (requests w) r) as [q|] eqn:Q; [|lia].
  cbn. destruct (inflight q) eqn:E.
  - pose proof (in_flight_update_settle _ _ _ (set_inflight q false) Q E
                                        eq_refl). lia.
  - rewrite (in_flight_update_same _ _ q); auto.
Qed.

Lemma closed_step_in_flight (w : World) (e : Event) :
  readyState (slots w) = CLOSED ->
  in_flight (requests (step w e)) <= in_flight (requests w).
Proof.
  intros Cl.
  destruct e as [|r status ct u text|r status|r|r| |i|b| |v|v];
    cbn [step].
  - unfold close. destruct (request (slots w)) as [r|]; [|cbn; lia].
    unfold request_abort. cbn [requests set_slots].
    destruct (nth_error (requests w) r) as [q|]; [|cbn; lia].
    destruct (inflight q); [|cbn; lia].
    rewrite onabort_closed by now rewrite settle_slots.
    eapply Nat.le_trans; [apply settle_in_flight_le|cbn; lia].
  - unfold onprogress, progress_chunk.
    destruct (nth_error (requests w) r) as [q|]; [|cbn; lia].
    rewrite Cl. cbn. lia.
  - unfold onload. rewrite settle_slots, Cl.
    destruct (nth_error _ r); apply settle_in_flight_le.
  - destruct (nth_error (requests w) r); [|lia].
    unfold onerror. rewrite settle_slots, Cl. apply settle_in_flight_le.
  - destruct (nth_error (requests w) r); [|lia].
    rewrite onabort_closed by now rewrite settle_slots.
    apply settle_in_flight_le.
  - destruct (tasks w) as [|t ts]; [lia|].
    rewrite run_task_closed by exact Cl. cbn. lia.
  - destruct (nth_error (timers w) i); cbn; lia.
  - cbn. lia.
  - rewrite online_listeners_closed by exact Cl. cbn. lia.
  - unfold setReconnectionTimeIncreasingRate.
    destruct (Qle_bool v 1); cbn; lia.
  - unfold setMaxBufferSize. destruct (Qle_bool v 0); cbn; lia.
Qed.

Lemma closed_run_in_flight (es : list Event) (w : World) :
  readyState (slots w) = CLOSED ->
  in_flight (requests (run w es)) <= in_flight (requests w).
Proof.
  revert w; induction es as [|e es IH]; intros w Cl; [cbn; lia|].
  cbn. destruct (closed_step w e Cl) as (Cl' & _).
  eapply Nat.le_trans; [apply IH, Cl'|].
  now apply closed_step_in_flight.
Qed.

(** X16. One connection at a time.  While the transport fires its events only
    for requests that are in flight, an [EventSource] has at most one
    source of traffic: a request in flight, or an "online" listener, or a
    reconnection timer, or a queued reconnection; and a request in flight
    is the one in [slots.request], which is the one [close()] aborts. *)
Theorem one_connection_at_a_time (d rate maxBuffer : Q) (online : bool)
        (u : URL) (credentials : bool) (es : list Event) :
  well_behaved (init d rate maxBuffer online u credentials) es = true ->
  let w := run (init d rate maxBuffer online u credentials) es in
  in_flight (requests w) + listeners w + length (timers w) +
  reconnects (tasks w) <= 1 /\
  (forall r q, nth_error (requests w) r = Some q -> inflight q = true ->
               request (slots w) = Some r).
Proof.
  intros WB w.
  assert (Sg : single w) by (apply run_single; [apply init_single|exact WB]).
  split; [exact (proj1 Sg)|].
  intros r q Q E. now destruct (single_in_flight w r q Sg Q E).
Qed.

Lemma one_connection_at_a_time_witness :
  well_behaved example_world example_session = true /\
  let w := run example_world example_session in
  in_flight (requests w) + listeners w + length (timers w) +
  reconnects (tasks w) <= 1 /\
  (forall r q, nth_error (requests w) r = Some q -> inflight q = true ->
               request (slots w) = Some r).
Proof.
  split; [vm_compute; reflexivity|].
  apply (one_connection_at_a_time 4000%Q (3 # 2)%Q 65536%Q true example_url
                                  false example_session).
  vm_compute; reflexivity.
Defined.

(** X17. After [close()] no request is in flight, whatever happens later,
    provided the transport was well behaved up to the call. *)
Theorem nothing_in_flight_after_close (d rate maxBuffer : Q) (online : bool)
        (u : URL) (credentials : bool) (es es' : list Event) :
  well_behaved (init d rate maxBuffer online u credentials) es = true ->
  let w := run (init d rate maxBuffer online u credentials) es in
  in_flight (requests (run (step w EClose) es')) = 0.
Proof.
  intros WB w.
  assert (Sg : single w) by (apply run_single; [apply init_single|exact WB]).
  destruct (close_single w Sg) as [_ Z].
  pose proof (closed_run_in_flight es' (step w EClose)
                                   (proj1 (close_closed w))) as L.
  cbn [step] in L. cbn [step]. lia.
Qed.

Lemma nothing_in_flight_after_close_witness :
  well_behaved example_world example_session = true /\
  in_flight (requests (run (step (run example_world example_session) EClose)
                           [EOnline; ERunTask])) = 0.
Proof.
  split; [vm_compute; reflexivity|].
  apply (nothing_in_flight_after_close 4000%Q (3 # 2)%Q 65536%Q true
                                       example_url false example_session
                                       [EOnline; ERunTask]).
  vm_compute; reflexivity.
Defined.

(** ** Open comes first *)

Lemma unguarded_app (ts ts' : list Task) :
  unguarded (ts ++ ts') =
  unguarded ts || (negb (existsb is_guard ts) && unguarded ts').
Proof.
  induction ts as [|t ts IH]; [reflexivity|].
  destruct t; cbn; auto.
Qed.

Lemma unguarded_no_message (ts : list Task) :
  existsb is_message ts = false -> unguarded ts = false.
Proof.
  induction ts as [|t ts IH]; [reflexivity|].
  destruct t; cbn; auto.
Qed.

Lemma no_message_in_messages_free (ts : list Task) :
  existsb is_message ts = false -> forall ts0,
    unguarded ts0 = false -> unguarded (ts0 ++ ts) = false.
Proof.
  intros N ts0 U. rewrite unguarded_app, U, (unguarded_no_message ts N).
  now rewrite andb_false_r.
Qed.

Lemma open_first_snoc (l : list Notification) (n : Notification) :
  open_first l ->
  match n with
  | NMessage _ _ => In NOpen l
  | _ => True
  end ->
  open_first (l ++ [n]).
Proof.
  intros O H pre r e post E.
  induction post as [|x post' _] using rev_ind.
  - apply app_inj_tail in E as [-> ->]. exact H.
  - change (pre ++ NMessage r e :: post' ++ [x])
      with (pre ++ (NMessage r e :: post') ++ [x]) in E.
    rewrite app_assoc in E. apply app_inj_tail in E as [-> _].
    now apply (O pre r e post').
Qed.

Lemma all_first_update (rs : list Request) (r : nat) (q q' : Request) :
  nth_error rs r = Some q -> first q' = first q ->
  forallb first (update_request rs r q') = forallb first rs.
Proof.
  revert r; induction rs as [|x rs IH]; intros [|r] Q E; cbn in *;
    try discriminate.
  - injection Q as ->. now rewrite E.
  - now rewrite (IH r Q E).
Qed.

Lemma all_first_nth (rs : list Request) (r : nat) (q : Request) :
  nth_error rs r = Some q -> first q = false -> forallb first rs = false.
Proof.
  revert r; induction rs as [|x rs IH]; intros [|r] Q E; cbn in *;
    try discriminate.
  - injection Q as ->. now rewrite E.
  - rewrite (IH r Q E). apply andb_false_r.
Qed.

Lemma quiet_refl (w : World) : quiet w w.
Proof.
  repeat split; auto. exists []. now rewrite app_nil_r.
Qed.

Lemma quiet_trans (a b c : World) : quiet a b -> quiet b c -> quiet a c.
Proof.
  intros (C1 & D1 & (t1 & T1 & M1) & F1) (C2 & D2 & (t2 & T2 & M2) & F2).
  repeat split; auto; [congruence|].
  exists (t1 ++ t2). rewrite T2, T1, <- app_assoc. split; [reflexivity|].
  now rewrite existsb_app, M1, M2.
Qed.

(** A step that changes neither [readyState], nor the queue, nor what was
    delivered, and keeps every request fresh, is quiet. *)
Lemma quiet_same (w w' : World) :
  readyState (slots w') = readyState (slots w) ->
  delivered w' = delivered w -> tasks w' = tasks w ->
  (forallb first (requests w) = true -> forallb first (requests w') = true) ->
  quiet w w'.
Proof.
  intros R D T F. repeat split; auto; [congruence|].
  exists []. now rewrite app_nil_r.
Qed.

Lemma quiet_task (w : World) (t : Task) :
  is_message t = false -> quiet w (queue w t).
Proof.
  intros M. repeat split; auto. exists [t]. split; [reflexivity|].
  cbn. now rewrite M.
Qed.

Lemma settle_quiet (w : World) (r : nat) : quiet w (settle w r).
Proof.
  unfold settle. destruct (nth_error (requests w) r) as [q|] eqn:Q;
    [|apply quiet_refl].
  apply quiet_same; auto. cbn.
  now rewrite (all_first_update _ _ q).
Qed.

Lemma createConnection_quiet (w : World) : quiet w (createConnection w).
Proof.
  unfold createConnection. destruct (negb (onLine w)); apply quiet_same; auto.
  cbn. intros F. now rewrite forallb_app, F.
Qed.

Lemma onabort_quiet (w : World) : quiet w (onabort w).
Proof.
  unfold onabort. destruct (negb _); [|apply quiet_refl].
  eapply quiet_trans; [|apply createConnection_quiet].
  now apply quiet_same.
Qed.

Lemma request_abort_quiet (w : World) (r : nat) :
  quiet w (request_abort w r).
Proof.
  unfold request_abort. destruct (nth_error (requests w) r) as [q|];
    [|apply quiet_refl].
  destruct (inflight q); [|apply quiet_refl].
  eapply quiet_trans; [apply settle_quiet|apply onabort_quiet].
Qed.

Lemma close_quiet (w : World) : quiet w (close w).
Proof.
  assert (Q0 : quiet w (set_slots (set_slots w (set_readyState (slots w) CLOSED))
                                  (set_request
                                     (slots (set_slots w (set_readyState
                                                            (slots w) CLOSED)))
                                     None))).
  { repeat split; auto. exists []. now rewrite app_nil_r. }
  unfold close. destruct (request (slots w)) as [r|]; [|exact Q0].
  eapply quiet_trans; [exact Q0|apply request_abort_quiet].
Qed.

Lemma reestablishConnection_quiet (w : World) :
  quiet w (reestablishConnection w).
Proof.
  unfold reestablishConnection.
  eapply quiet_trans; [apply (quiet_task w TReestablish eq_refl)|].
  now apply quiet_same.
Qed.

Lemma onload_quiet (w : World) (r status : nat) :
  quiet w (onload w r status).
Proof.
  unfold onload. destruct (nth_error (requests w) r) as [q|];
    [|apply quiet_refl].
  destruct (_ || _); [apply quiet_refl|].
  set (w1 := set_slots w _).
  assert (Q1 : quiet w w1) by now apply quiet_same.
  clearbody w1.
  assert (Q2 : quiet w (if status =? 200 then reestablishConnection w1
                        else w1)).
  { destruct (status =? 200); [|exact Q1].
    eapply quiet_trans; [exact Q1|apply reestablishConnection_quiet]. }
  destruct ((status =? 204) && first q); [|exact Q2].
  eapply quiet_trans; [exact Q2|]. now apply quiet_task.
Qed.

Lemma onerror_quiet (w : World) : quiet w (onerror w).
Proof.
  unfold onerror. destruct (negb _); [|apply quiet_refl].
  eapply quiet_trans; [|apply reestablishConnection_quiet].
  now apply quiet_same.
Qed.

Lemma online_listeners_quiet (n : nat) (w : World) :
  quiet w (Nat.iter n online_listener w).
Proof.
  induction n as [|n IH]; [apply quiet_refl|].
  change (Nat.iter (S n) online_listener w)
    with (online_listener (Nat.iter n online_listener w)).
  eapply quiet_trans; [exact IH|]. unfold online_listener.
  destruct (negb _); [apply createConnection_quiet|apply quiet_refl].
Qed.

Lemma quiet_ordered (w w' : World) : quiet w w' -> ordered w -> ordered w'.
Proof.
  intros (C & D & (ts & T & M) & F) [O A]. split; [now rewrite D|].
  destruct A as [[Cl|Op]|(U & G)].
  - left. left. auto.
  - left. right. now rewrite D.
  - right. rewrite T. split; [now apply no_message_in_messages_free|].
    destruct G as [G|G]; [left; auto|right].
    now rewrite existsb_app, G.
Qed.

(** A chunk queues its messages behind the closure that opens or fails
    the connection. *)
Lemma progress_chunk_ordered (w : World) (r status : nat)
      (ct : option jsstring) (u : option URL) (text : jsstring) :
  ordered w -> ordered (fst (progress_chunk w r status ct u text)).
Proof.
  intros [O A]. unfold progress_chunk.
  destruct (nth_error (requests w) r) as [q|] eqn:Q; [|now split].
  destruct (ReadyState_eqb (readyState (slots w)) CLOSED || (status =? 0));
    [now split|].
  destruct (first q) eqn:F; [destruct (valid_response status ct)|];
    cbv beta iota zeta; cbn [negb];
    try match goal with
        | |- context [parseStream ?s ?st ?b] =>
            pose proof (parseStream_same s st b) as H;
            destruct (parseStream s st b) as [[s1 st1] evs];
            destruct H as (_ & _ & _ & Hr & _)
        end; cbn [fst]; (split; [exact O|]);
    unfold announced, past_opening in *; cbn in *; rewrite ?Hr.
  - destruct A as [A|(U & G)]; [now left|right].
    rewrite <- app_assoc, unguarded_app, U, !existsb_app. cbn.
    rewrite orb_true_r. split; [|now right].
    now destruct (existsb is_guard (tasks w)).
  - destruct A as [A|(U & G)]; [now left|right].
    rewrite unguarded_app, U, !existsb_app. cbn.
    rewrite orb_true_r. split; [|now right].
    now destruct (existsb is_guard (tasks w)).
  - destruct A as [A|(U & G)]; [now left|right].
    rewrite (all_first_nth _ _ _ Q F) in G.
    destruct G as [G|G]; [discriminate|].
    rewrite unguarded_app, U, existsb_app, G. now split; [|right].
Qed.

Lemma run_task_ordered (w : World) (t : Task) (ts : list Task) :
  ordered w -> tasks w = t :: ts -> ordered (run_task (set_tasks w ts) t).
Proof.
  intros [O A] T.
  assert (Keep : is_guard t = false -> is_message t = false ->
                 ordered (set_tasks w ts)).
  { intros G M. split; [exact O|].
    destruct A as [A|(U & H)]; [now left|right]. rewrite T in U, H.
    cbn [tasks set_tasks requests] in *.
    destruct t; cbn in *; try discriminate; auto. }
  assert (Closed : readyState (slots w) = CLOSED -> ordered (set_tasks w ts)).
  { intros Cl. split; [exact O|]. left. now left. }
  unfold run_task. cbn [slots set_tasks].
  destruct (ReadyState_eqb (readyState (slots w)) CLOSED) eqn:E.
  - assert (Cl : readyState (slots w) = CLOSED)
      by (destruct (readyState (slots w)); try discriminate; reflexivity).
    rewrite Cl. destruct t; cbn; auto.
  - assert (NC : readyState (slots w) <> CLOSED)
      by (intros Cl; rewrite Cl in E; discriminate).
    destruct t; cbn [negb].
    + split.
      * apply open_first_snoc; [exact O|exact I].
      * left. right. cbn. apply in_or_app. right. now left.
    + assert (K := Keep eq_refl eq_refl). destruct K as [_ K]. split.
      * apply open_first_snoc; [exact O|exact I].
      * destruct K as [[Cl|Op]|K]; [contradiction| |now right].
        left. right. cbn. apply in_or_app. now left.
    + destruct (ReadyState_eqb _ CONNECTING); [|now apply Keep].
      apply (quiet_ordered (set_tasks w ts)); [|now apply Keep].
      apply createConnection_quiet.
    + split.
      * apply open_first_snoc; [|exact I].
        now rewrite (proj2 (close_closed (set_tasks w ts))).
      * left. left. cbn. apply (proj1 (close_closed (set_tasks w ts))).
    + assert (Op : In NOpen (delivered w)).
      { destruct A as [[Cl|Op]|(U & _)]; [contradiction|exact Op|].
        rewrite T in U. discriminate. }
      split.
      * apply open_first_snoc; [exact O|exact Op].
      * left. right. cbn. apply in_or_app. now left.
Qed.

Lemma step_ordered (w : World) (e : Event) : ordered w -> ordered (step w e).
Proof.
  intros Or.
  destruct e as [|r status ct u text|r status|r|r| |i|b| |v|v];
    cbn [step].
  - apply (quiet_ordered w); [apply close_quiet|exact Or].
  - unfold onprogress.
    pose proof (progress_chunk_ordered w r status ct u text Or) as O1.
    destruct (progress_chunk w r status ct u text) as [w1 parsed].
    cbn [fst] in O1.
    destruct (parsed && buffer_exceeded w1 text); [|exact O1].
    apply (quiet_ordered w1); [apply request_abort_quiet|exact O1].
  - apply (quiet_ordered w); [|exact Or].
    eapply quiet_trans; [apply settle_quiet|apply onload_quiet].
  - destruct (nth_error (requests w) r); [|exact Or].
    apply (quiet_ordered w); [|exact Or].
    eapply quiet_trans; [apply settle_quiet|apply onerror_quiet].
  - destruct (nth_error (requests w) r); [|exact Or].
    apply (quiet_ordered w); [|exact Or].
    eapply quiet_trans; [apply settle_quiet|apply onabort_quiet].
  - destruct (tasks w) as [|t ts] eqn:T; [exact Or|].
    now apply run_task_ordered.
  - destruct (nth_error (timers w) i); [|exact Or].
    apply (quiet_ordered w); [|exact Or].
    eapply quiet_trans; [|apply (quiet_task _ TReconnect eq_refl)].
    now apply quiet_same.
  - apply (quiet_ordered w); [now apply quiet_same|exact Or].
  - apply (quiet_ordered w); [|exact Or].
    eapply quiet_trans; [|apply online_listeners_quiet].
    now apply quiet_same.
  - unfold setReconnectionTimeIncreasingRate.
    destruct (Qle_bool v 1); [exact Or|].
    apply (quiet_ordered w); [now apply quiet_same|exact Or].
  - unfold setMaxBufferSize.
    destruct (Qle_bool v 0); [exact Or|].
    apply (quiet_ordered w); [now apply quiet_same|exact Or].
Qed.

Lemma run_ordered (es : list Event) (w : World) :
  ordered w -> ordered (run w es).
Proof.
  revert w; induction es as [|e es IH]; intros w Or; [exact Or|].
  cbn. apply IH. now apply step_ordered.
Qed.

Lemma init_ordered (d rate maxBuffer : Q) (online : bool) (u : URL)
      (credentials : bool) :
  ordered (init d rate maxBuffer online u credentials).
Proof.
  unfold init. eapply quiet_ordered; [apply createConnection_quiet|].
  split.
  - intros [|x pre] r e post E; discriminate.
  - right. cbn. split; [reflexivity|now left].
Qed.

(** X18. Open comes first.  Whatever the transport and the consumer do, every
    "message" event that an [EventSource] dispatches comes after an "open"
    event: the closure of [announceConnection] is queued ahead of the
    closures of [dispatchMessage], and a response that fails its check
    queues the closure that closes the connection ahead of them. *)
Theorem open_before_messages (d rate maxBuffer : Q) (online : bool)
        (u : URL) (credentials : bool) (es : list Event)
        (pre post : list Notification) (r : nat) (e : MessageEvent) :
  delivered (run (init d rate maxBuffer online u credentials) es) =
    pre ++ NMessage r e :: post ->
  In NOpen pre.
Proof.
  intros E.
  destruct (run_ordered es _ (init_ordered d rate maxBuffer online u
                                           credentials)) as [O _].
  exact (O pre r e post E).
Qed.

Lemma open_before_messages_witness :
  delivered (run example_world
                 [EProgress 0 200 example_contentType None plain_stream;
                  ERunTask; ERunTask]) =
    [NOpen] ++ NMessage 0 example_message :: [] /\
  In NOpen [NOpen].
Proof.
  split; [vm_compute; reflexivity|].
  apply (open_before_messages 4000%Q (3 # 2)%Q 65536%Q true example_url false
           [EProgress 0 200 example_contentType None plain_stream;
            ERunTask; ERunTask]
           [NOpen] [] 0 example_message).
  vm_compute; reflexivity.
Defined.
